(** * Energy-based silence stripping and pause ratio, and main-speaker selection

    A shallow embedding of the bespoke logic of the two notebooks
    [preprocess_raw_audio.ipynb] and the feature-extraction notebook:

      - [strip_silence]            (both notebooks, identical text),
      - [compute_total_pause_time] (preprocessing notebook),
      - the main-speaker selection, the diarization pause ratio and the
        excision of the kept segments (preprocessing notebook, diarization
        loop),
      - the peak normalization [signal / np.max(np.abs(signal))] (feature
        notebook, MFCC loop).

    Modelling conventions.

      - numpy / Python floating-point values are modelled as exact rationals
        [Q]; rounding is outside the model.  What Python and numpy do on a
        division by zero is modelled explicitly ([truediv]), because the two
        differ and the pause routine mixes both kinds of scalar.
      - [librosa.feature.rms] is an external library call.  Its result, the
        frame-energy sequence, is an explicit argument [energy] of the
        embedded routines.  The number of frames it returns is recorded in
        [librosa.rms_frames].
      - A signal is a list of samples of an arbitrary type; the sample rate is
        a positive integer, as returned by [librosa.load]. *)

From Stdlib Require Import String List Bool Arith ZArith QArith Qabs Qminmax Qround.
From Stdlib Require Import Permutation Lia Lqa.
Import ListNotations.

(** ** Python outcomes *)

Inductive exn : Set :=
| ValueError          (* np.concatenate on an empty sequence of arrays *)
| ZeroDivisionError.  (* Python float division by zero *)

Inductive result (A : Type) : Type :=
| Ok (a : A)
| Raise (e : exn).

Arguments Ok {A} a.
Arguments Raise {A} e.

(** ** Comparisons on energies *)

(** [x > y] and [x < y] as numpy evaluates them element-wise. *)
Definition Qgt_bool (x y : Q) : bool := negb (Qle_bool x y).
Definition Qlt_bool (x y : Q) : bool := negb (Qle_bool y x).

(** ** The library calls the routines make *)

Module librosa.

(** [librosa.frames_to_samples(i, hop_length=hop_length)], with the default
    [n_fft=None], is [i * hop_length]. *)
Definition frames_to_samples (i hop_length : nat) : nat := i * hop_length.

(** [librosa.frames_to_time(i, sr=sr, hop_length=hop_length)] is
    [frames_to_samples(i) / float(sr)]. *)
Definition frames_to_time (i : nat) (sr : positive) (hop_length : nat) : Q :=
  Z.of_nat (frames_to_samples i hop_length) # sr.

(** [librosa.get_duration(y=y, sr=sr)] is [len(y) / sr]. *)
Definition get_duration {A : Type} (y : list A) (sr : positive) : Q :=
  Z.of_nat (length y) # sr.

(** Number of frames [librosa.feature.rms] returns for a signal of [n]
    samples with its defaults [center=True], [pad_mode="constant"]: the
    signal is padded with [frame_length // 2] zeros on both sides and framed
    with stride [hop_length].  ([librosa] raises for [hop_length < 1], and
    when the padded signal is shorter than one frame.) *)
Definition rms_frames (n frame_length hop_length : nat) : nat :=
  1 + (n + 2 * (frame_length / 2) - frame_length) / hop_length.

End librosa.

Module np.

Section Arrays.
Context {A : Type}.

(** [y[a:b]] for non-negative [a], [b]. *)
Definition slice (y : list A) (a b : nat) : list A := skipn a (firstn b y).

(** [y[a:]] for non-negative [a]. *)
Definition slice_from (y : list A) (a : nat) : list A := skipn a y.

(** [np.concatenate(parts)]: raises [ValueError] ("need at least one
    array to concatenate") on an empty list. *)
Definition concatenate (parts : list (list A)) : result (list A) :=
  match parts with
  | [] => Raise ValueError
  | _ :: _ => Ok (concat parts)
  end.
End Arrays.

End np.

(** ** Frame classification *)

(** [non_silent_frames = energy > silence_threshold]  (strip_silence). *)
Definition non_silent_frames (energy : list Q) (silence_threshold : Q) : list bool :=
  map (fun e => Qgt_bool e silence_threshold) energy.

(** [silence = energy < silence_threshold]  (compute_total_pause_time). *)
Definition silence (energy : list Q) (silence_threshold : Q) : list bool :=
  map (fun e => Qlt_bool e silence_threshold) energy.

(** ** strip_silence *)

Section StripSilence.
Context {A : Type}.
Variable y : list A.
Variable hop_length : nat.

(** State of the loop: [(non_silent_audio, start_idx)]. *)
Definition strip_state : Type := (list (list A) * option nat)%type.

(** One iteration of [for i in range(len(non_silent_frames))]. *)
Definition strip_step (st : strip_state) (i : nat) (frame : bool) : strip_state :=
  match frame, snd st with
  | true, None =>
      (fst st, Some (librosa.frames_to_samples i hop_length))
  | false, Some start_idx =>
      let end_idx := librosa.frames_to_samples i hop_length in
      (fst st ++ [np.slice y start_idx end_idx], None)
  | _, _ => st
  end.

Fixpoint strip_loop (frames : list bool) (i : nat) (st : strip_state) : strip_state :=
  match frames with
  | [] => st
  | frame :: rest => strip_loop rest (S i) (strip_step st i frame)
  end.

(** The step after the loop:
    [if start_idx is not None: non_silent_audio.append(y[start_idx:])]. *)
Definition close_region (st : strip_state) : list (list A) :=
  match snd st with
  | Some start_idx => fst st ++ [np.slice_from y start_idx]
  | None => fst st
  end.

(** The list [non_silent_audio] as it is handed to [np.concatenate]. *)
Definition non_silent_audio (frames : list bool) : list (list A) :=
  close_region (strip_loop frames 0 ([], None)).

(** [energy] is [librosa.feature.rms(y=y, frame_length, hop_length)[0]];
    [sr] only serves the array [times], which the routine never reads. *)
Definition strip_silence (sr : positive) (energy : list Q)
           (silence_threshold : Q) : result (list A) :=
  np.concatenate (non_silent_audio (non_silent_frames energy silence_threshold)).

End StripSilence.

(** ** compute_total_pause_time *)

(** The two kinds of scalar the pause routine mixes.  [pause_time] starts as
    the Python float [0.0]; every [pause_time += (end - start)] adds a
    [numpy.float64] (an element of [times]) and so rebinds [pause_time] to a
    [numpy.float64]. *)
Inductive scalar : Set :=
| PyFloat (q : Q)
| NpFloat64 (q : Q).

Definition scalar_value (s : scalar) : Q :=
  match s with PyFloat q | NpFloat64 q => q end.

(** [s += d] for a [numpy.float64] [d]. *)
Definition iadd_np (s : scalar) (d : Q) : scalar := NpFloat64 (scalar_value s + d).

(** A returned floating-point number: finite, or one of the non-finite values
    numpy produces on a division by zero. *)
Inductive float : Set :=
| Finite (q : Q)
| NaN
| Inf (negative : bool).

(** [a / b] where [b] is a Python float.  A Python float divided by [0.0]
    raises [ZeroDivisionError]; a [numpy.float64] divided by [0.0] warns and
    evaluates to [nan] ([0/0]) or to a signed infinity. *)
Definition truediv (a : scalar) (b : Q) : result float :=
  if Qeq_bool b 0 then
    match a with
    | PyFloat _ => Raise ZeroDivisionError
    | NpFloat64 q => Ok (if Qeq_bool q 0 then NaN else Inf (Qlt_bool q 0))
    end
  else Ok (Finite (scalar_value a / b)).

Section PauseTime.
Context {A : Type}.
Variable y : list A.
Variable sr : positive.
Variable hop_length : nat.

(** [times[i]], where
    [times = librosa.frames_to_time(np.arange(len(energy)), sr, hop_length)]. *)
Definition times (i : nat) : Q := librosa.frames_to_time i sr hop_length.

(** State of the loop: [(pause_time, start)]. *)
Definition pause_state : Type := (scalar * option Q)%type.

(** One iteration of [for i in range(len(silence))]. *)
Definition pause_step (st : pause_state) (i : nat) (silent : bool) : pause_state :=
  match silent, snd st with
  | true, None => (fst st, Some (times i))
  | false, Some start =>
      let end_ := times i in
      (iadd_np (fst st) (end_ - start), None)
  | _, _ => st
  end.

Fixpoint pause_loop (sil : list bool) (i : nat) (st : pause_state) : pause_state :=
  match sil with
  | [] => st
  | silent :: rest => pause_loop rest (S i) (pause_step st i silent)
  end.

(** The step after the loop, [last_time] being [times[-1]]:
    [if start is not None: pause_time += (times[-1] - start)]. *)
Definition close_pause (last_time : Q) (st : pause_state) : scalar :=
  match snd st with
  | Some start => iadd_np (fst st) (last_time - start)
  | None => fst st
  end.

(** [pause_time] when it is divided.  [times[-1]] is only read with a pause
    open, hence with at least one frame. *)
Definition pause_time (sil : list bool) : scalar :=
  close_pause (times (length sil - 1)) (pause_loop sil 0 (PyFloat 0, None)).

(** [energy] is [librosa.feature.rms(y=y, frame_length, hop_length)[0]]. *)
Definition compute_total_pause_time (energy : list Q) (silence_threshold : Q)
  : result float :=
  let total_signal_time := librosa.get_duration y sr in
  truediv (pause_time (silence energy silence_threshold)) total_signal_time.

(** The quantity the pause routine is compared with: the same loop, the
    final pause closed at the end of the signal instead of at [times[-1]]. *)
Definition pause_time_to_end (sil : list bool) : scalar :=
  close_pause (librosa.get_duration y sr) (pause_loop sil 0 (PyFloat 0, None)).

Definition pause_ratio_to_end (energy : list Q) (silence_threshold : Q)
  : result float :=
  truediv (pause_time_to_end (silence energy silence_threshold))
          (librosa.get_duration y sr).

End PauseTime.

(** ** Diarization loop: main speaker and pause ratio *)

(** [speakers = diarization.labels()] and [diarization.label_duration] come
    from pyannote; the selection is parametric in them. *)
Section Diarization.
Variable label_duration : string -> Q.

(** State of the loop: [(max_duration, main_speaker)]. *)
Definition select_step (st : Q * string) (speaker : string) : Q * string :=
  if Qgt_bool (label_duration speaker) (fst st)
  then (label_duration speaker, speaker)
  else st.

(** [None] is the [continue] taken on an empty label list. *)
Definition main_speaker (speakers : list string) : option string :=
  match speakers with
  | [] => None
  | speaker0 :: _ =>
      let multiple_speakers := 1 <? length speakers in
      if multiple_speakers
      then Some (snd (fold_left select_step speakers (0, speaker0)))
      else Some speaker0
  end.

(** What the selection loop knows after the labels [seen]: either nothing
    seen has a positive duration and the initial choice stands, or the
    current choice is the first of the labels seen with the largest
    duration. *)
Definition select_inv (speaker0 : string) (seen : list string)
           (st : Q * string) : Prop :=
  (st = (0, speaker0) /\ forall s, In s seen -> label_duration s <= 0)
  \/ (fst st = label_duration (snd st)
      /\ 0 < label_duration (snd st)
      /\ exists pre post,
          seen = pre ++ snd st :: post
          /\ (forall s, In s pre -> label_duration s < label_duration (snd st))
          /\ (forall s, In s post -> label_duration s <= label_duration (snd st))).
End Diarization.

(** [pause_ratio = pause_duration / speaker_duration], with
    [pause_duration = gaps_timeline.duration()] and
    [speaker_duration = speaker_timeline.duration()] computed by pyannote.
    [None] stands for the division by a zero speech duration, which yields no
    finite number. *)
Definition diarization_pause_ratio (pause_duration speaker_duration : Q) : option Q :=
  if Qeq_bool speaker_duration 0 then None
  else Some (pause_duration / speaker_duration).

(** ** Regions, as the specification describes them *)

(** A maximal run of frames [first_frame .. end_frame - 1] sharing [label]. *)
Record region : Set := mkRegion
  { label : bool; first_frame : nat; end_frame : nat }.

(** Run-length encoding of the labels of frames [i], [i+1], ... *)
Fixpoint runLengthEncode_from (i : nat) (labels : list bool) : list region :=
  match labels with
  | [] => []
  | l :: rest =>
      match runLengthEncode_from (S i) rest with
      | r :: rs =>
          if Bool.eqb (label r) l
          then mkRegion l i (end_frame r) :: rs
          else mkRegion l i (S i) :: r :: rs
      | [] => [mkRegion l i (S i)]
      end
  end.

Definition runLengthEncode (labels : list bool) : list region :=
  runLengthEncode_from 0 labels.

Section Regions.
Context {A : Type}.
Variable y : list A.
Variable hop_length : nat.

(** Samples of a region: a boundary at frame [i] is sample [i * hop_length];
    the final region runs to the end of the signal. *)
Definition region_span (r : region) (final : bool) : list A :=
  if final
  then np.slice_from y (first_frame r * hop_length)
  else np.slice y (first_frame r * hop_length) (end_frame r * hop_length).

(** Sample spans of the regions labelled [true], in temporal order. *)
Fixpoint active_spans (regions : list region) : list (list A) :=
  match regions with
  | [] => []
  | r :: rs =>
      let final := match rs with [] => true | _ :: _ => false end in
      if label r
      then region_span r final :: active_spans rs
      else active_spans rs
  end.

(** The spans of [regions], which start at frame [i], when an active region
    that began at frame [k] is still open in front of them. *)
Definition open_spans (k i : nat) (regions : list region) : list (list A) :=
  match regions with
  | [] => [np.slice_from y (k * hop_length)]
  | r :: rs =>
      let final := match rs with [] => true | _ :: _ => false end in
      if label r
      then region_span (mkRegion true k (end_frame r)) final :: active_spans rs
      else np.slice y (k * hop_length) (i * hop_length) :: active_spans regions
  end.
End Regions.

Section RegionDurations.
Variable sr : positive.
Variable hop_length : nat.

(** Duration in seconds of a region.  A region starts at the start time of
    its first frame and ends at the start time of the frame that follows it;
    the final region has no such frame and ends at [end_time].  The
    specification ends it at the end of the signal,
    [end_time = len(signal) / sampleRate]. *)
Definition region_seconds (end_time : Q) (r : region) (final : bool) : Q :=
  (if final then end_time else times sr hop_length (end_frame r))
  - times sr hop_length (first_frame r).

(** Summed durations of the regions labelled [true]. *)
Fixpoint regions_seconds (end_time : Q) (regions : list region) : Q :=
  match regions with
  | [] => 0
  | r :: rs =>
      let final := match rs with [] => true | _ :: _ => false end in
      if label r
      then region_seconds end_time r final + regions_seconds end_time rs
      else regions_seconds end_time rs
  end.

(** The same sum when a region labelled [true] that began at frame [k] is
    still open in front of [regions], which start at frame [i]. *)
Definition open_seconds (end_time : Q) (k i : nat) (regions : list region) : Q :=
  match regions with
  | [] => end_time - times sr hop_length k
  | r :: rs =>
      let final := match rs with [] => true | _ :: _ => false end in
      if label r
      then region_seconds end_time (mkRegion true k (end_frame r)) final
           + regions_seconds end_time rs
      else (times sr hop_length i - times sr hop_length k)
           + regions_seconds end_time regions
  end.
End RegionDurations.

(** [regions] cover the frames [i .. n - 1] without gap or overlap, each
    region being non-empty. *)
Fixpoint tiles (i : nat) (regions : list region) (n : nat) : Prop :=
  match regions with
  | [] => i = n
  | r :: rs =>
      first_frame r = i /\ (first_frame r < end_frame r)%nat
      /\ tiles (end_frame r) rs n
  end.

(** Adjacent regions carry different labels. *)
Fixpoint alternates (regions : list region) : Prop :=
  match regions with
  | [] => True
  | r :: rs =>
      match rs with
      | [] => True
      | r' :: _ => label r <> label r'
      end /\ alternates rs
  end.

(** The label sequence a list of regions stands for. *)
Definition decode (regions : list region) : list bool :=
  concat (map (fun r => repeat (label r) (end_frame r - first_frame r)) regions).

(** Whether a scalar is a [numpy.float64]. *)
Definition is_np (s : scalar) : bool :=
  match s with PyFloat _ => false | NpFloat64 _ => true end.

(** ** Frames and the samples they own *)

Section FrameSamples.
Context {A : Type}.
Variable hop_length : nat.

(** The samples of [z] that belong to frames labelled [true], when frame [0]
    starts at the head of [z]: every frame but the last owns the
    [hop_length] samples from its start on, the last frame owns everything
    from its start to the end of the signal. *)
Fixpoint active_frame_samples (labels : list bool) (z : list A) : list A :=
  match labels with
  | [] => []
  | l :: rest =>
      match rest with
      | [] => if l then z else []
      | _ :: _ =>
          (if l then firstn hop_length z else [])
          ++ active_frame_samples rest (skipn hop_length z)
      end
  end.
End FrameSamples.

(** Number of frames labelled [true]. *)
Definition count_frames (labels : list bool) : nat :=
  length (filter (fun b => b) labels).

(** ** Diarization loop: keeping the main speaker's audio *)

(** [int(x)] on a Python float: truncation towards zero. *)
Definition python_int (x : Q) : Z := Z.quot (Qnum x) (Z.pos (Qden x)).

(** A [pyannote.core.Segment]: [segment.start], [segment.end] in seconds. *)
Record Segment : Set := mkSegment { seg_start : Q; seg_end : Q }.

Section SpeakerAudio.
Context {A : Type}.
Variable audio : list A.
Variable sr : positive.

(** A slice bound as numpy reads it: a negative bound counts from the end,
    and every bound is clipped to the array. *)
Definition slice_bound (i : Z) : nat :=
  let n := Z.of_nat (length audio) in
  Z.to_nat (if (i <? 0)%Z then Z.max 0 (i + n) else Z.min i n).

(** [audio[start_sample:end_sample]] for integers of either sign. *)
Definition audio_slice (start_sample end_sample : Z) : list A :=
  np.slice audio (slice_bound start_sample) (slice_bound end_sample).

(** The body of [for segment in keep_timeline]. *)
Definition segment_audio (segment : Segment) : list A :=
  let start_sample := python_int (seg_start segment * (Z.pos sr # 1)) in
  let end_sample := python_int (seg_end segment * (Z.pos sr # 1)) in
  audio_slice start_sample end_sample.

(** [speaker_audio], one part appended per segment, then concatenated. *)
Definition speaker_audio (keep_timeline : list Segment) : result (list A) :=
  np.concatenate (map segment_audio keep_timeline).

(** [removed_ratio = 1 - speaker_audio.shape[0] / audio.shape[0]]: a
    division of Python integers. *)
Definition removed_ratio (kept : list A) : result Q :=
  match length audio with
  | O => Raise ZeroDivisionError
  | S _ => Ok (1 - (Z.of_nat (length kept) # 1) / (Z.of_nat (length audio) # 1))
  end.
End SpeakerAudio.

(** The sample at which a time [t], in seconds, falls, as a slice bound. *)
Definition sample_index {A : Type} (audio : list A) (sr : positive) (t : Q) : nat :=
  slice_bound audio (python_int (t * (Z.pos sr # 1))).

(** Segments in temporal order, none starting before [t] or before the
    previous one ends. *)
Fixpoint ordered_from (t : Q) (timeline : list Segment) : Prop :=
  match timeline with
  | [] => True
  | segment :: rest =>
      t <= seg_start segment /\ seg_start segment <= seg_end segment
      /\ ordered_from (seg_end segment) rest
  end.

(** Segments that follow each other without a gap, the first starting at
    [t]. *)
Fixpoint contiguous_from (t : Q) (timeline : list Segment) : Prop :=
  match timeline with
  | [] => True
  | segment :: rest =>
      seg_start segment == t /\ seg_start segment <= seg_end segment
      /\ contiguous_from (seg_end segment) rest
  end.

(** End of the last segment of a timeline that starts at [t]. *)
Definition timeline_end (t : Q) (timeline : list Segment) : Q :=
  fold_left (fun _ segment => seg_end segment) timeline t.

(** ** Peak normalization (feature notebook, MFCC loop) *)

(** [np.max(a)]: raises [ValueError] on an empty array. *)
Definition np_max (a : list Q) : result Q :=
  match a with
  | [] => Raise ValueError
  | x :: rest => Ok (fold_left Qmax rest x)
  end.

(** [np.abs(a)]. *)
Definition np_abs (a : list Q) : list Q := map Qabs a.

(** One element of [a / m] for numpy arrays: a division by zero warns and
    yields [nan] or a signed infinity. *)
Definition np_divide (x m : Q) : float :=
  if Qeq_bool m 0
  then (if Qeq_bool x 0 then NaN else Inf (Qlt_bool x 0))
  else Finite (x / m).

(** [signal / np.max(np.abs(signal))]. *)
Definition normalize (signal : list Q) : result (list float) :=
  match np_max (np_abs signal) with
  | Raise e => Raise e
  | Ok peak => Ok (map (fun x => np_divide x peak) signal)
  end.

(** * Properties *)

(** ** Comparisons *)

Lemma Qgt_bool_iff (x y : Q) : Qgt_bool x y = true <-> y < x.
Proof.
  unfold Qgt_bool. rewrite negb_true_iff, <- not_true_iff_false, Qle_bool_iff.
  split; [apply Qnot_le_lt | apply Qlt_not_le].
Qed.

Lemma Qlt_bool_iff (x y : Q) : Qlt_bool x y = true <-> x < y.
Proof. unfold Qlt_bool. apply (Qgt_bool_iff y x). Qed.

Lemma Qgt_bool_false_iff (x y : Q) : Qgt_bool x y = false <-> x <= y.
Proof.
  unfold Qgt_bool. rewrite negb_false_iff. apply Qle_bool_iff.
Qed.

Lemma Qlt_bool_false_iff (x y : Q) : Qlt_bool x y = false <-> y <= x.
Proof. unfold Qlt_bool. apply (Qgt_bool_false_iff y x). Qed.

Lemma non_silent_frames_all_false (energy : list Q) (thr : Q) :
  Forall (fun e => e <= thr) energy ->
  Forall (fun b => b = false) (non_silent_frames energy thr).
Proof.
  unfold non_silent_frames. induction 1 as [|e l He _ IH]; cbn; constructor; auto.
  now apply Qgt_bool_false_iff.
Qed.

Lemma non_silent_frames_all_true (energy : list Q) (thr : Q) :
  Forall (fun e => thr < e) energy ->
  Forall (fun b => b = true) (non_silent_frames energy thr).
Proof.
  unfold non_silent_frames. induction 1 as [|e l He _ IH]; cbn; constructor; auto.
  now apply Qgt_bool_iff.
Qed.

Lemma silence_all_false (energy : list Q) (thr : Q) :
  Forall (fun e => thr <= e) energy ->
  Forall (fun b => b = false) (silence energy thr).
Proof.
  unfold silence. induction 1 as [|e l He _ IH]; cbn; constructor; auto.
  now apply Qlt_bool_false_iff.
Qed.

Lemma silence_all_true (energy : list Q) (thr : Q) :
  Forall (fun e => e < thr) energy ->
  Forall (fun b => b = true) (silence energy thr).
Proof.
  unfold silence. induction 1 as [|e l He _ IH]; cbn; constructor; auto.
  now apply Qlt_bool_iff.
Qed.

(** ** The loop of strip_silence *)

Section StripLoopFacts.
Context {A : Type}.
Variable y : list A.
Variable hop_length : nat.

Lemma strip_loop_app (f1 f2 : list bool) :
  forall i st,
    strip_loop y hop_length (f1 ++ f2) i st
    = strip_loop y hop_length f2 (i + length f1) (strip_loop y hop_length f1 i st).
Proof.
  induction f1 as [|f f1 IH]; intros i st; cbn.
  - now rewrite Nat.add_0_r.
  - rewrite IH. f_equal. lia.
Qed.

(** Silent frames leave a closed state alone. *)
Lemma strip_loop_silent (frames : list bool) :
  Forall (fun b => b = false) frames ->
  forall i parts, strip_loop y hop_length frames i (parts, None) = (parts, None).
Proof.
  induction 1 as [|f l Hf _ IH]; intros i parts; cbn; [reflexivity|].
  subst f. apply IH.
Qed.

(** Active frames leave an open state alone. *)
Lemma strip_loop_active (frames : list bool) :
  Forall (fun b => b = true) frames ->
  forall i parts s,
    strip_loop y hop_length frames i (parts, Some s) = (parts, Some s).
Proof.
  induction 1 as [|f l Hf _ IH]; intros i parts s; cbn; [reflexivity|].
  subst f. apply IH.
Qed.

(** A run of active frames met in a closed state opens a region at its
    first frame. *)
Lemma strip_loop_active_opens (frames : list bool) :
  frames <> [] ->
  Forall (fun b => b = true) frames ->
  forall i parts,
    strip_loop y hop_length frames i (parts, None)
    = (parts, Some (librosa.frames_to_samples i hop_length)).
Proof.
  intros Hne Hall i parts. destruct frames as [|f l]; [contradiction|].
  inversion Hall as [|? ? Hf Hl]; subst. cbn.
  now apply strip_loop_active.
Qed.

(** After a silent last frame no region is open. *)
Lemma strip_loop_ends_silent (frames : list bool) :
  frames <> [] ->
  last frames false = false ->
  forall i st, snd (strip_loop y hop_length frames i st) = None.
Proof.
  intros Hne Hlast i st.
  rewrite (app_removelast_last false Hne), Hlast, strip_loop_app. cbn.
  destruct (strip_loop y hop_length (removelast frames) i st) as [parts [s|]];
    reflexivity.
Qed.

Lemma strip_loop_closed (frames : list bool) :
  last frames false = false ->
  forall i parts, snd (strip_loop y hop_length frames i (parts, None)) = None.
Proof.
  intros Hlast i parts. destruct frames as [|f l]; [reflexivity|].
  apply strip_loop_ends_silent; [discriminate | exact Hlast].
Qed.
End StripLoopFacts.

(** ** Frame labels (C1) *)

(** C1, as amended.  [strip_silence] labels frame [i] active exactly when
    [energy[i] > silence_threshold], so a frame whose energy equals the
    threshold is silent there.  [compute_total_pause_time] labels frame [i]
    silent exactly when [energy[i] < silence_threshold], so the same frame is
    not silent there: the two consumers disagree on the boundary. *)
Theorem C1_frame_labels :
  forall (energy : list Q) (silence_threshold : Q) (i : nat) (e : Q),
    nth_error energy i = Some e ->
    (nth_error (non_silent_frames energy silence_threshold) i = Some true
     <-> silence_threshold < e)
    /\ (nth_error (non_silent_frames energy silence_threshold) i = Some false
        <-> e <= silence_threshold)
    /\ (nth_error (silence energy silence_threshold) i = Some true
        <-> e < silence_threshold)
    /\ (nth_error (silence energy silence_threshold) i = Some false
        <-> silence_threshold <= e).
Proof.
  intros energy thr i e He. unfold non_silent_frames, silence.
  rewrite !nth_error_map, He. cbn.
  repeat split; intro H;
    try (injection H as H);
    try (f_equal);
    first [ now apply Qgt_bool_iff | now apply Qgt_bool_false_iff
          | now apply Qlt_bool_iff | now apply Qlt_bool_false_iff ].
Qed.

Lemma C1_frame_labels_witness :
  (nth_error (non_silent_frames [3 # 100; 1 # 50] (1 # 50)) 1 = Some true
   <-> 1 # 50 < 1 # 50)
  /\ (nth_error (non_silent_frames [3 # 100; 1 # 50] (1 # 50)) 1 = Some false
      <-> 1 # 50 <= 1 # 50)
  /\ (nth_error (silence [3 # 100; 1 # 50] (1 # 50)) 1 = Some true
      <-> 1 # 50 < 1 # 50)
  /\ (nth_error (silence [3 # 100; 1 # 50] (1 # 50)) 1 = Some false
      <-> 1 # 50 <= 1 # 50).
Proof.
  apply (C1_frame_labels [3 # 100; 1 # 50] (1 # 50) 1 (1 # 50)). reflexivity.
Defined.

(** C1 as stated fails for the pause routine: a frame whose energy equals the
    threshold is not labelled silent by [compute_total_pause_time], although
    its energy does not exceed the threshold.  On three such frames
    [strip_silence] finds no active frame and raises, while
    [compute_total_pause_time] finds no silent frame and returns [0]. *)
Lemma C1_pause_boundary_frame_not_silent :
  ~ (nth_error (silence [1 # 50] (1 # 50)) 0 = Some false <-> 1 # 50 < 1 # 50)
  /\ strip_silence [1; 2; 3; 4; 5]%Z 2 16000 [1 # 50; 1 # 50; 1 # 50] (1 # 50)
     = Raise ValueError
  /\ exists r,
      compute_total_pause_time [1; 2; 3; 4; 5]%Z 16000 2
        [1 # 50; 1 # 50; 1 # 50] (1 # 50)
      = Ok (Finite r)
      /\ r == 0.
Proof.
  split; [|split].
  - intros [H _]. specialize (H eq_refl). revert H. apply Qlt_irrefl.
  - reflexivity.
  - eexists. split; reflexivity.
Qed.

(** ** strip_silence on uniform signals (C2, C3) and its last region (C7) *)

(** C2.  When no frame's energy exceeds the threshold, [non_silent_audio] is
    empty when it reaches [np.concatenate], which raises: [strip_silence]
    returns no value. *)
Theorem C2_strip_silence_all_silent_raises :
  forall (A : Type) (y : list A) (sr : positive) (hop_length : nat)
         (energy : list Q) (silence_threshold : Q),
    Forall (fun e => e <= silence_threshold) energy ->
    non_silent_audio y hop_length (non_silent_frames energy silence_threshold) = []
    /\ strip_silence y hop_length sr energy silence_threshold = Raise ValueError.
Proof.
  intros A y sr hop energy thr Hall.
  assert (Hnil : non_silent_audio y hop (non_silent_frames energy thr) = []).
  { unfold non_silent_audio.
    rewrite strip_loop_silent by now apply non_silent_frames_all_false.
    reflexivity. }
  split; [exact Hnil|]. unfold strip_silence. now rewrite Hnil.
Qed.

Lemma C2_strip_silence_all_silent_raises_witness :
  non_silent_audio [1; 2; 3; 4; 5]%Z 2
    (non_silent_frames [1 # 100; 1 # 50; 0] (1 # 50)) = []
  /\ strip_silence [1; 2; 3; 4; 5]%Z 2 16000 [1 # 100; 1 # 50; 0] (1 # 50)
     = Raise ValueError.
Proof.
  apply (C2_strip_silence_all_silent_raises Z [1; 2; 3; 4; 5]%Z 16000 2).
  repeat constructor; discriminate.
Defined.

(** C3.  When every frame's energy exceeds the threshold, [strip_silence]
    returns the input signal itself. *)
Theorem C3_strip_silence_all_active_identity :
  forall (A : Type) (y : list A) (sr : positive) (hop_length : nat)
         (energy : list Q) (silence_threshold : Q),
    energy <> [] ->
    Forall (fun e => silence_threshold < e) energy ->
    strip_silence y hop_length sr energy silence_threshold = Ok y.
Proof.
  intros A y sr hop energy thr Hne Hall.
  unfold strip_silence, non_silent_audio.
  rewrite strip_loop_active_opens.
  - cbn. now rewrite app_nil_r.
  - unfold non_silent_frames. destruct energy; [contradiction | discriminate].
  - now apply non_silent_frames_all_true.
Qed.

Lemma C3_strip_silence_all_active_identity_witness :
  strip_silence [1; 2; 3; 4; 5]%Z 2 16000 [1 # 10; 1 # 20; 3 # 100] (1 # 50)
  = Ok [1; 2; 3; 4; 5]%Z.
Proof.
  apply C3_strip_silence_all_active_identity.
  - discriminate.
  - repeat constructor.
Defined.

(** A label sequence that ends with an active frame ends with a maximal run
    of active frames. *)
Lemma final_active_run (energy : list Q) (thr : Q) :
  last (non_silent_frames energy thr) false = true ->
  exists before run,
    energy = before ++ run
    /\ run <> []
    /\ Forall (fun e => thr < e) run
    /\ last (non_silent_frames before thr) false = false.
Proof.
  induction energy as [|x rest IH]; [discriminate|].
  destruct rest as [|x' rest'].
  - cbn. intro Hx. apply Qgt_bool_iff in Hx.
    exists [], [x]. repeat split; [discriminate | now repeat constructor].
  - intro Hlast.
    destruct (IH Hlast) as (before & run & Hsplit & Hne & Hall & Hbefore).
    destruct before as [|b before'].
    + cbn [app] in Hsplit.
      destruct (Qgt_bool x thr) eqn:Hx.
      * apply Qgt_bool_iff in Hx.
        exists [], (x :: run). rewrite Hsplit.
        repeat split; [discriminate | now constructor].
      * exists [x], run. rewrite Hsplit.
        repeat split; [exact Hne | exact Hall | cbn; exact Hx].
    + exists (x :: b :: before'), run. rewrite Hsplit.
      repeat split; [exact Hne | exact Hall | exact Hbefore].
Qed.

(** C7.  When the labels end with an active frame, they end with a maximal
    run of active frames that starts at some frame [length before]; the last
    part appended is [y[start_idx:]] with
    [start_idx = length before * hop_length], so the output is everything
    kept from the frames before the run followed by the signal from
    [start_idx] to its very end, [len(y) - start_idx] samples. *)
Theorem C7_last_region_runs_to_signal_end :
  forall (A : Type) (y : list A) (sr : positive) (hop_length : nat)
         (energy : list Q) (silence_threshold : Q),
    last (non_silent_frames energy silence_threshold) false = true ->
    exists before run,
      energy = before ++ run
      /\ run <> []
      /\ Forall (fun e => silence_threshold < e) run
      /\ last (non_silent_frames before silence_threshold) false = false
      /\ let start_idx := librosa.frames_to_samples (length before) hop_length in
         let kept := non_silent_audio y hop_length
                       (non_silent_frames before silence_threshold) in
         non_silent_audio y hop_length
           (non_silent_frames energy silence_threshold)
         = kept ++ [np.slice_from y start_idx]
         /\ strip_silence y hop_length sr energy silence_threshold
            = Ok (concat kept ++ skipn start_idx y)
         /\ length (skipn start_idx y) = (length y - start_idx)%nat.
Proof.
  intros A y sr hop energy thr Hends.
  destruct (final_active_run energy thr Hends)
    as (before & run & -> & Hne & Hall & Hlast).
  exists before, run. do 4 (split; [first [reflexivity | assumption]|]).
  intros start_idx kept.
  assert (Hparts :
    non_silent_audio y hop (non_silent_frames (before ++ run) thr)
    = kept ++ [np.slice_from y start_idx]).
  { subst kept start_idx. unfold non_silent_audio, non_silent_frames.
    rewrite map_app, strip_loop_app, length_map. cbn [Nat.add].
    pose proof (strip_loop_closed y hop _ Hlast 0 []) as Hclosed.
    unfold non_silent_frames in Hclosed.
    destruct (strip_loop y hop (map (fun e => Qgt_bool e thr) before) 0 ([], None))
      as [parts st] eqn:Hloop.
    cbn in Hclosed. subst st.
    rewrite strip_loop_active_opens.
    - reflexivity.
    - destruct run; [contradiction | discriminate].
    - now apply non_silent_frames_all_true. }
  split; [exact Hparts|]. split.
  - unfold strip_silence. rewrite Hparts.
    destruct kept as [|k ks]; cbn.
    + now rewrite app_nil_r.
    + rewrite concat_app. cbn. now rewrite app_nil_r, app_assoc.
  - apply length_skipn.
Qed.

Lemma C7_last_region_runs_to_signal_end_witness :
  exists before run,
    [1 # 10; 0; 1 # 10; 1 # 20] = before ++ run
    /\ run <> []
    /\ Forall (fun e => 1 # 50 < e) run
    /\ last (non_silent_frames before (1 # 50)) false = false
    /\ let start_idx := librosa.frames_to_samples (length before) 2 in
       let kept := non_silent_audio [1; 2; 3; 4; 5; 6; 7]%Z 2
                     (non_silent_frames before (1 # 50)) in
       non_silent_audio [1; 2; 3; 4; 5; 6; 7]%Z 2
         (non_silent_frames [1 # 10; 0; 1 # 10; 1 # 20] (1 # 50))
       = kept ++ [np.slice_from [1; 2; 3; 4; 5; 6; 7]%Z start_idx]
       /\ strip_silence [1; 2; 3; 4; 5; 6; 7]%Z 2 16000
            [1 # 10; 0; 1 # 10; 1 # 20] (1 # 50)
          = Ok (concat kept ++ skipn start_idx [1; 2; 3; 4; 5; 6; 7]%Z)
       /\ length (skipn start_idx [1; 2; 3; 4; 5; 6; 7]%Z)
          = (length [1; 2; 3; 4; 5; 6; 7]%Z - start_idx)%nat.
Proof.
  apply (C7_last_region_runs_to_signal_end
           Z [1; 2; 3; 4; 5; 6; 7]%Z 16000 2 [1 # 10; 0; 1 # 10; 1 # 20] (1 # 50)).
  reflexivity.
Defined.

(** ** strip_silence and the run-length encoded regions (C8) *)

Lemma runLengthEncode_from_nil (labels : list bool) (i : nat) :
  runLengthEncode_from i labels = [] -> labels = [].
Proof.
  destruct labels as [|l rest]; [reflexivity|]. cbn.
  destruct (runLengthEncode_from (S i) rest) as [|r rs]; [discriminate|].
  destruct (Bool.eqb (label r) l); discriminate.
Qed.

(** The first region of an encoding carries the label of the first frame and
    starts at it. *)
Lemma runLengthEncode_from_head (l : bool) (rest : list bool) (i : nat) :
  exists e rs,
    runLengthEncode_from i (l :: rest) = mkRegion l i e :: rs.
Proof.
  cbn. destruct (runLengthEncode_from (S i) rest) as [|r rs].
  - now exists (S i), [].
  - destruct (Bool.eqb (label r) l); eauto.
Qed.

Section StripRegionFacts.
Context {A : Type}.
Variable y : list A.
Variable hop_length : nat.

(** The parts collected so far are only ever appended to. *)
Lemma strip_loop_parts (frames : list bool) :
  forall i parts st,
    strip_loop y hop_length frames i (parts, st)
    = (parts ++ fst (strip_loop y hop_length frames i ([], st)),
       snd (strip_loop y hop_length frames i ([], st))).
Proof.
  induction frames as [|f rest IH]; intros i parts st.
  - cbn. now rewrite app_nil_r.
  - destruct f, st as [s|]; cbn; unfold strip_step; cbn;
      rewrite ?(IH (S i) (parts ++ _)), ?(IH (S i) [_]);
      try apply IH.
    now rewrite <- app_assoc.
Qed.

Lemma close_region_parts (frames : list bool) (i : nat) parts st :
  close_region y (strip_loop y hop_length frames i (parts, st))
  = parts ++ close_region y (strip_loop y hop_length frames i ([], st)).
Proof.
  rewrite strip_loop_parts. unfold close_region. cbn.
  destruct (snd (strip_loop y hop_length frames i ([], st)));
    [now rewrite app_assoc | reflexivity].
Qed.

(** What the loop and the closing step produce from frame [i] on, in a
    closed state and with a region open since frame [k]. *)
Lemma strip_loop_regions (frames : list bool) :
  forall i,
    close_region y (strip_loop y hop_length frames i ([], None))
    = active_spans y hop_length (runLengthEncode_from i frames)
    /\ forall k,
        close_region y
          (strip_loop y hop_length frames i ([], Some (k * hop_length)%nat))
        = open_spans y hop_length k i (runLengthEncode_from i frames).
Proof.
  induction frames as [|f rest IH]; intro i.
  - split; reflexivity.
  - destruct (IH (S i)) as [IHclosed IHopen].
    split; [|intro k]; destruct f; cbn [strip_loop strip_step fst snd].
    + (* active frame, closed state: a region opens at [i] *)
      unfold librosa.frames_to_samples. rewrite IHopen.
      cbn [runLengthEncode_from].
      destruct (runLengthEncode_from (S i) rest) as [|r rs]; [reflexivity|].
      destruct (label r) eqn:Hr; cbn.
      * rewrite Hr. reflexivity.
      * rewrite Hr. reflexivity.
    + (* silent frame, closed state *)
      rewrite IHclosed. cbn [runLengthEncode_from].
      destruct (runLengthEncode_from (S i) rest) as [|r rs]; [reflexivity|].
      destruct (label r) eqn:Hr; cbn; rewrite ?Hr; reflexivity.
    + (* active frame, open state *)
      rewrite IHopen. cbn [runLengthEncode_from].
      destruct (runLengthEncode_from (S i) rest) as [|r rs]; [reflexivity|].
      destruct (label r) eqn:Hr; cbn; rewrite ?Hr; reflexivity.
    + (* silent frame, open state: the region closes at [i] *)
      rewrite close_region_parts, IHclosed. cbn [runLengthEncode_from].
      unfold librosa.frames_to_samples.
      destruct (runLengthEncode_from (S i) rest) as [|r rs]; [reflexivity|].
      destruct (label r) eqn:Hr; cbn; rewrite ?Hr; reflexivity.
Qed.

Lemma non_silent_audio_regions (frames : list bool) :
  non_silent_audio y hop_length frames
  = active_spans y hop_length (runLengthEncode frames).
Proof. apply (strip_loop_regions frames 0). Qed.

(** An active frame gives at least one active span. *)
Lemma active_spans_nonempty (frames : list bool) :
  forall i,
    In true frames ->
    active_spans y hop_length (runLengthEncode_from i frames) <> [].
Proof.
  induction frames as [|f rest IH]; intros i Hin; [contradiction|].
  destruct f.
  - destruct (runLengthEncode_from_head true rest i) as (e & rs & ->).
    cbn. discriminate.
  - destruct Hin as [Hin|Hin]; [discriminate|].
    specialize (IH (S i) Hin). cbn [runLengthEncode_from].
    destruct (runLengthEncode_from (S i) rest) as [|r rs]; [contradiction|].
    destruct (label r) eqn:Hr; cbn in *; rewrite ?Hr in *; exact IH.
Qed.
End StripRegionFacts.

(** The encoding is a run-length encoding: it tiles the frames, its labels
    alternate, and it decodes to the label sequence. *)
Lemma runLengthEncode_from_tiles (labels : list bool) :
  forall i, tiles i (runLengthEncode_from i labels) (i + length labels).
Proof.
  induction labels as [|l rest IH]; intro i; cbn [runLengthEncode_from].
  - cbn. lia.
  - specialize (IH (S i)).
    destruct (runLengthEncode_from (S i) rest) as [|r rs] eqn:Hrle.
    + apply runLengthEncode_from_nil in Hrle. subst rest. cbn. lia.
    + destruct IH as (Hfirst & Hlt & Htail).
      replace (i + length (l :: rest))%nat with (S i + length rest)%nat
        by (cbn; lia).
      destruct (Bool.eqb (label r) l); cbn; repeat split; auto; lia.
Qed.

Lemma runLengthEncode_from_alternates (labels : list bool) :
  forall i, alternates (runLengthEncode_from i labels).
Proof.
  induction labels as [|l rest IH]; intro i; cbn [runLengthEncode_from].
  - exact I.
  - specialize (IH (S i)).
    destruct (runLengthEncode_from (S i) rest) as [|r rs]; [cbn; auto|].
    destruct (Bool.eqb (label r) l) eqn:Heq.
    + apply Bool.eqb_prop in Heq. subst l. exact IH.
    + apply Bool.eqb_false_iff in Heq. cbn in *. split; [congruence | exact IH].
Qed.

Lemma runLengthEncode_from_decode (labels : list bool) :
  forall i, decode (runLengthEncode_from i labels) = labels.
Proof.
  unfold decode.
  induction labels as [|l rest IH]; intro i; cbn [runLengthEncode_from];
    [reflexivity|].
  pose proof (runLengthEncode_from_tiles rest (S i)) as Ht.
  specialize (IH (S i)).
  destruct (runLengthEncode_from (S i) rest) as [|r rs] eqn:Hrle.
  - apply runLengthEncode_from_nil in Hrle. subst rest.
    cbn [map concat label end_frame first_frame].
    replace (S i - i)%nat with 1%nat by lia. reflexivity.
  - destruct Ht as (Hfirst & Hlt & _).
    cbn [map concat label end_frame first_frame] in IH.
    destruct (Bool.eqb (label r) l) eqn:Heq;
      cbn [map concat label end_frame first_frame].
    + apply Bool.eqb_prop in Heq. rewrite <- IH, <- Heq.
      replace (end_frame r - i)%nat with (S (end_frame r - first_frame r)) by lia.
      reflexivity.
    + rewrite IH. replace (S i - i)%nat with 1%nat by lia. reflexivity.
Qed.

(** C8.  When some frame is active, the output of [strip_silence] is the
    concatenation, in temporal order, of the sample spans of the active
    regions of the run-length encoded labels, a boundary at frame [i] being
    sample [i * hop_length]; silent regions contribute nothing.  The regions
    tile the frames, alternate in label and decode to the label sequence. *)
Theorem C8_strip_silence_concatenates_active_regions :
  forall (A : Type) (y : list A) (sr : positive) (hop_length : nat)
         (energy : list Q) (silence_threshold : Q),
    (exists e, In e energy /\ silence_threshold < e) ->
    let labels := non_silent_frames energy silence_threshold in
    let regions := runLengthEncode labels in
    strip_silence y hop_length sr energy silence_threshold
    = Ok (concat (active_spans y hop_length regions))
    /\ tiles 0 regions (length energy)
    /\ alternates regions
    /\ decode regions = labels.
Proof.
  intros A y sr hop energy thr (e & Hin & He) labels regions.
  split; [|split; [|split]].
  - unfold strip_silence. fold labels.
    rewrite non_silent_audio_regions. fold regions.
    assert (Hne : active_spans y hop regions <> []).
    { apply active_spans_nonempty. subst labels. unfold non_silent_frames.
      apply in_map_iff. exists e. split; [now apply Qgt_bool_iff | exact Hin]. }
    destruct (active_spans y hop regions); [contradiction | reflexivity].
  - subst regions labels. unfold runLengthEncode.
    replace (length energy) with (0 + length (non_silent_frames energy thr))%nat
      by (unfold non_silent_frames; now rewrite length_map).
    apply runLengthEncode_from_tiles.
  - apply runLengthEncode_from_alternates.
  - apply runLengthEncode_from_decode.
Qed.

Lemma C8_strip_silence_concatenates_active_regions_witness :
  strip_silence [1; 2; 3; 4; 5; 6; 7]%Z 2 16000 [1 # 10; 0; 1 # 10; 1 # 20] (1 # 50)
  = Ok (concat (active_spans [1; 2; 3; 4; 5; 6; 7]%Z 2
                  (runLengthEncode
                     (non_silent_frames [1 # 10; 0; 1 # 10; 1 # 20] (1 # 50)))))
  /\ tiles 0 (runLengthEncode
                (non_silent_frames [1 # 10; 0; 1 # 10; 1 # 20] (1 # 50)))
       (length [1 # 10; 0; 1 # 10; 1 # 20])
  /\ alternates (runLengthEncode
                   (non_silent_frames [1 # 10; 0; 1 # 10; 1 # 20] (1 # 50)))
  /\ decode (runLengthEncode
               (non_silent_frames [1 # 10; 0; 1 # 10; 1 # 20] (1 # 50)))
     = non_silent_frames [1 # 10; 0; 1 # 10; 1 # 20] (1 # 50).
Proof.
  apply (C8_strip_silence_concatenates_active_regions
           Z [1; 2; 3; 4; 5; 6; 7]%Z 16000 2 [1 # 10; 0; 1 # 10; 1 # 20] (1 # 50)).
  exists (1 # 10). split; [now left | reflexivity].
Defined.

(** ** Durations and the division *)

Lemma get_duration_zero_iff (A : Type) (y : list A) (sr : positive) :
  librosa.get_duration y sr == 0 <-> y = [].
Proof.
  unfold librosa.get_duration, Qeq. cbn. rewrite Z.mul_1_r.
  destruct y; cbn; split; intro H; try reflexivity; try discriminate; lia.
Qed.

Lemma get_duration_pos (A : Type) (y : list A) (sr : positive) :
  y <> [] -> 0 < librosa.get_duration y sr.
Proof.
  intro Hne. unfold librosa.get_duration, Qlt. cbn. rewrite Z.mul_1_r.
  destruct y; [contradiction | cbn; lia].
Qed.

Lemma times_le_iff (sr : positive) (hop_length i j : nat) :
  times sr hop_length i <= times sr hop_length j
  <-> (i * hop_length <= j * hop_length)%nat.
Proof.
  unfold times, librosa.frames_to_time, librosa.frames_to_samples, Qle. cbn.
  rewrite <- Z.mul_le_mono_pos_r by lia. lia.
Qed.

(** [times[i]] against the duration of the signal. *)
Lemma times_lt_duration_iff (A : Type) (y : list A) (sr : positive)
      (hop_length i : nat) :
  times sr hop_length i < librosa.get_duration y sr
  <-> (i * hop_length < length y)%nat.
Proof.
  unfold times, librosa.frames_to_time, librosa.frames_to_samples,
    librosa.get_duration, Qlt. cbn.
  rewrite <- Z.mul_lt_mono_pos_r by lia. lia.
Qed.

Lemma times_eq_duration_iff (A : Type) (y : list A) (sr : positive)
      (hop_length i : nat) :
  times sr hop_length i == librosa.get_duration y sr
  <-> (i * hop_length = length y)%nat.
Proof.
  unfold times, librosa.frames_to_time, librosa.frames_to_samples,
    librosa.get_duration, Qeq. cbn.
  rewrite Z.mul_cancel_r by lia. lia.
Qed.

Lemma times_0 (sr : positive) (hop_length : nat) : times sr hop_length 0 == 0.
Proof. reflexivity. Qed.

(** With a non-zero divisor the division is the ordinary one, whichever kind
    of scalar is divided. *)
Lemma truediv_finite (a : scalar) (b : Q) :
  ~ b == 0 -> truediv a b = Ok (Finite (scalar_value a / b)).
Proof.
  intro Hb. unfold truediv.
  destruct (Qeq_bool b 0) eqn:E; [|reflexivity].
  apply Qeq_bool_eq in E. contradiction.
Qed.

(** With a zero divisor it never yields a finite number. *)
Lemma truediv_zero (a : scalar) (b : Q) :
  b == 0 ->
  truediv a b
  = match a with
    | PyFloat _ => Raise ZeroDivisionError
    | NpFloat64 q => Ok (if Qeq_bool q 0 then NaN else Inf (Qlt_bool q 0))
    end.
Proof.
  intro Hb. unfold truediv. apply Qeq_eq_bool in Hb. now rewrite Hb.
Qed.

(** [librosa.feature.rms] returns at least one frame, and exactly one on the
    empty signal. *)
Lemma rms_frames_pos (n frame_length hop_length : nat) :
  (1 <= librosa.rms_frames n frame_length hop_length)%nat.
Proof. unfold librosa.rms_frames. lia. Qed.

Lemma rms_frames_empty (frame_length hop_length : nat) :
  librosa.rms_frames 0 frame_length hop_length = 1%nat.
Proof.
  unfold librosa.rms_frames.
  pose proof (Nat.Div0.mul_div_le frame_length 2).
  replace (0 + 2 * (frame_length / 2) - frame_length)%nat with 0%nat by lia.
  now rewrite Nat.Div0.div_0_l.
Qed.

(** The frame count of [librosa.feature.rms] never places the last frame
    start beyond the end of the signal. *)
Lemma rms_frames_last_start (n frame_length hop_length : nat) :
  ((librosa.rms_frames n frame_length hop_length - 1) * hop_length <= n)%nat.
Proof.
  unfold librosa.rms_frames.
  replace (1 + (n + 2 * (frame_length / 2) - frame_length) / hop_length - 1)%nat
    with ((n + 2 * (frame_length / 2) - frame_length) / hop_length)%nat by lia.
  destruct hop_length as [|h]; [lia|].
  pose proof (Nat.Div0.mul_div_le (n + 2 * (frame_length / 2) - frame_length) (S h)).
  pose proof (Nat.Div0.mul_div_le frame_length 2).
  lia.
Qed.

(** ** The loop of compute_total_pause_time *)

Section PauseLoopFacts.
Variable sr : positive.
Variable hop_length : nat.

Lemma pause_loop_app (s1 s2 : list bool) :
  forall i st,
    pause_loop sr hop_length (s1 ++ s2) i st
    = pause_loop sr hop_length s2 (i + length s1) (pause_loop sr hop_length s1 i st).
Proof.
  induction s1 as [|s s1 IH]; intros i st; cbn.
  - now rewrite Nat.add_0_r.
  - rewrite IH. f_equal. lia.
Qed.

(** Frames that are not silent leave a closed state alone. *)
Lemma pause_loop_not_silent (sil : list bool) :
  Forall (fun b => b = false) sil ->
  forall i acc, pause_loop sr hop_length sil i (acc, None) = (acc, None).
Proof.
  induction 1 as [|s l Hs _ IH]; intros i acc; cbn; [reflexivity|].
  subst s. apply IH.
Qed.

(** Silent frames leave an open state alone. *)
Lemma pause_loop_silent (sil : list bool) :
  Forall (fun b => b = true) sil ->
  forall i acc start,
    pause_loop sr hop_length sil i (acc, Some start) = (acc, Some start).
Proof.
  induction 1 as [|s l Hs _ IH]; intros i acc start; cbn; [reflexivity|].
  subst s. apply IH.
Qed.

(** After a silent last frame a pause is open. *)
Lemma pause_loop_ends_silent (sil : list bool) :
  last sil false = true ->
  forall i st, exists start, snd (pause_loop sr hop_length sil i st) = Some start.
Proof.
  intros Hlast i st.
  assert (Hne : sil <> []) by (intros ->; discriminate).
  rewrite (app_removelast_last false Hne), Hlast, pause_loop_app. cbn.
  destruct (pause_loop sr hop_length (removelast sil) i st) as [acc [s|]];
    cbn; eauto.
Qed.

(** The open pause does not depend on the time accumulated so far, and the
    accumulated time only grows by what the frames add. *)
Lemma pause_loop_acc (sil : list bool) :
  forall i acc st,
    snd (pause_loop sr hop_length sil i (acc, st))
    = snd (pause_loop sr hop_length sil i (PyFloat 0, st))
    /\ scalar_value (fst (pause_loop sr hop_length sil i (acc, st)))
       == scalar_value acc
          + scalar_value (fst (pause_loop sr hop_length sil i (PyFloat 0, st))).
Proof.
  induction sil as [|s rest IH]; intros i acc st.
  - cbn. split; [reflexivity | ring].
  - destruct s, st as [start|]; cbn [pause_loop pause_step fst snd];
      try apply IH.
    destruct (IH (S i) (iadd_np acc (times sr hop_length i - start)) None)
      as [Hs Hv].
    destruct (IH (S i) (iadd_np (PyFloat 0) (times sr hop_length i - start)) None)
      as [Hs0 Hv0].
    split; [congruence|]. rewrite Hv, Hv0. cbn. ring.
Qed.

Lemma close_pause_acc (sil : list bool) (i : nat) (t : Q) acc st :
  scalar_value (close_pause t (pause_loop sr hop_length sil i (acc, st)))
  == scalar_value acc
     + scalar_value (close_pause t (pause_loop sr hop_length sil i (PyFloat 0, st))).
Proof.
  destruct (pause_loop_acc sil i acc st) as [Hs Hv].
  unfold close_pause. rewrite Hs.
  destruct (snd (pause_loop sr hop_length sil i (PyFloat 0, st))); cbn.
  - rewrite Hv. ring.
  - exact Hv.
Qed.

(** [pause_time] is a [numpy.float64] as soon as something was added to it,
    which is as soon as one frame is silent. *)
Lemma close_pause_kind (sil : list bool) :
  forall i t acc st,
    is_np (close_pause t (pause_loop sr hop_length sil i (acc, st)))
    = is_np acc || match st with Some _ => true | None => false end
      || existsb (fun b => b) sil.
Proof.
  induction sil as [|s rest IH]; intros i t acc st.
  - destruct st; cbn; now rewrite ?orb_true_r, ?orb_false_r.
  - destruct s, st as [start|]; cbn [pause_loop pause_step fst snd existsb];
      rewrite IH; cbn; now rewrite ?orb_true_r, ?orb_false_r.
Qed.
End PauseLoopFacts.

(** ** The empty signal (C5) *)

(** C5, as amended.  Nothing guards the division.  On a signal of zero
    duration [compute_total_pause_time] never returns a finite number: it
    raises [ZeroDivisionError] when no frame is silent ([pause_time] is still
    the Python float [0.0]), and it returns a non-finite value without
    raising when some frame is silent ([pause_time] is then a
    [numpy.float64]); with the single frame [librosa.feature.rms] returns on
    such a signal, that value is [nan]. *)
Theorem C5_zero_duration_division_unguarded :
  forall (A : Type) (y : list A) (sr : positive) (hop_length : nat)
         (energy : list Q) (silence_threshold : Q),
    librosa.get_duration y sr == 0 ->
    (forall r, compute_total_pause_time y sr hop_length energy silence_threshold
               <> Ok (Finite r))
    /\ (Forall (fun e => silence_threshold <= e) energy ->
        compute_total_pause_time y sr hop_length energy silence_threshold
        = Raise ZeroDivisionError)
    /\ ((exists e, In e energy /\ e < silence_threshold) ->
        (compute_total_pause_time y sr hop_length energy silence_threshold = Ok NaN
         \/ exists negative,
             compute_total_pause_time y sr hop_length energy silence_threshold
             = Ok (Inf negative))
        /\ forall frame_length,
            length energy = librosa.rms_frames (length y) frame_length hop_length ->
            compute_total_pause_time y sr hop_length energy silence_threshold
            = Ok NaN).
Proof.
  intros A y sr hop energy thr Hzero.
  unfold compute_total_pause_time. rewrite (truediv_zero _ _ Hzero).
  split; [|split].
  - intros r. destruct (pause_time sr hop (silence energy thr)) as [q|q];
      [discriminate|]. destruct (Qeq_bool q 0); discriminate.
  - intro Hall. unfold pause_time.
    rewrite pause_loop_not_silent by now apply silence_all_false.
    reflexivity.
  - intros (e & Hin & He). split.
    + assert (Hnp : is_np (pause_time sr hop (silence energy thr)) = true).
      { unfold pause_time. rewrite close_pause_kind. cbn.
        apply existsb_exists. exists true. split; [|reflexivity].
        unfold silence. apply in_map_iff. exists e.
        split; [now apply Qlt_bool_iff | exact Hin]. }
      destruct (pause_time sr hop (silence energy thr)) as [q|q]; [discriminate|].
      destruct (Qeq_bool q 0); [now left | right; eauto].
    + intros frame_length Hframes.
      apply get_duration_zero_iff in Hzero. subst y.
      cbn [length] in Hframes. rewrite rms_frames_empty in Hframes.
      destruct energy as [|e0 [|e1 rest]]; try discriminate Hframes.
      destruct Hin as [->|[]].
      apply Qlt_bool_iff in He.
      unfold pause_time. cbn [silence map pause_loop]. rewrite He.
      cbn [pause_step fst snd close_pause iadd_np scalar_value length Nat.sub].
      assert (Hq : 0 + (times sr hop 0 - times sr hop 0) == 0) by ring.
      apply Qeq_eq_bool in Hq. now rewrite Hq.
Qed.

Lemma C5_zero_duration_division_unguarded_witness :
  (forall r, compute_total_pause_time (@nil Z) 16000 512 [0] (1 # 50)
             <> Ok (Finite r))
  /\ (Forall (fun e => 1 # 50 <= e) [0] ->
      compute_total_pause_time (@nil Z) 16000 512 [0] (1 # 50)
      = Raise ZeroDivisionError)
  /\ ((exists e, In e [0] /\ e < 1 # 50) ->
      (compute_total_pause_time (@nil Z) 16000 512 [0] (1 # 50) = Ok NaN
       \/ exists negative,
           compute_total_pause_time (@nil Z) 16000 512 [0] (1 # 50)
           = Ok (Inf negative))
      /\ forall frame_length,
          length [0] = librosa.rms_frames (length (@nil Z)) frame_length 512 ->
          compute_total_pause_time (@nil Z) 16000 512 [0] (1 # 50) = Ok NaN).
Proof.
  apply (C5_zero_duration_division_unguarded Z [] 16000 512 [0] (1 # 50)).
  reflexivity.
Defined.

(** C5 as stated fails on the empty signal.  [librosa.feature.rms] pads it
    with zeros and returns one frame of energy [0]; that frame is silent, the
    closing step makes [pause_time] a [numpy.float64], and the unguarded
    division returns [nan] instead of raising. *)
Lemma C5_empty_signal_returns_nan :
  librosa.get_duration (@nil Z) 16000 == 0
  /\ length [0] = librosa.rms_frames (length (@nil Z)) 2048 512
  /\ compute_total_pause_time (@nil Z) 16000 512 [0] (1 # 50) = Ok NaN
  /\ ~ (exists e,
         compute_total_pause_time (@nil Z) 16000 512 [0] (1 # 50) = Raise e).
Proof.
  repeat split. intros [e He]. discriminate He.
Qed.

(** ** Uniform signals (C6) *)

(** C6, as amended.  On a non-empty signal whose frames are all silent the
    routine returns [times[-1] / total_signal_time], that is
    [(n - 1) * hop_length / len(y)] for [n] frames, which is [1] exactly when
    the last frame starts at the end of the signal; on a non-empty signal
    with no silent frame it returns exactly [0]. *)
Theorem C6_pause_ratio_uniform_signals :
  forall (A : Type) (y : list A) (sr : positive) (hop_length : nat)
         (energy : list Q) (silence_threshold : Q),
    y <> [] ->
    (energy <> [] ->
     Forall (fun e => e < silence_threshold) energy ->
     exists r,
       compute_total_pause_time y sr hop_length energy silence_threshold
       = Ok (Finite r)
       /\ r == times sr hop_length (length energy - 1) / librosa.get_duration y sr
       /\ (r == 1 <-> ((length energy - 1) * hop_length)%nat = length y))
    /\ (Forall (fun e => silence_threshold <= e) energy ->
        exists r,
          compute_total_pause_time y sr hop_length energy silence_threshold
          = Ok (Finite r)
          /\ r == 0).
Proof.
  intros A y sr hop energy thr Hy.
  pose proof (get_duration_pos A y sr Hy) as Hpos.
  assert (Hnz : ~ librosa.get_duration y sr == 0) by lra.
  unfold compute_total_pause_time. rewrite (truediv_finite _ _ Hnz).
  split.
  - intros Hne Hall. eexists. split; [reflexivity|].
    assert (Hval : scalar_value (pause_time sr hop (silence energy thr))
                   == times sr hop (length energy - 1)).
    { unfold pause_time.
      pose proof (silence_all_true energy thr Hall) as Htrue.
      destruct energy as [|e0 energy']; [contradiction|].
      cbn [silence map] in *. inversion Htrue as [|? ? H0 Hrest]; subst.
      rewrite H0. cbn [pause_loop pause_step fst snd].
      rewrite pause_loop_silent by exact Hrest.
      cbn [close_pause snd fst iadd_np scalar_value length].
      rewrite length_map. rewrite times_0. ring. }
    split.
    + now rewrite Hval.
    + rewrite Hval, <- times_eq_duration_iff with (sr := sr).
      split; intro H.
      * apply (Qmult_inj_r _ _ (/ librosa.get_duration y sr)).
        { intro Hinv. apply Hnz.
          rewrite <- (Qinv_involutive (librosa.get_duration y sr)), Hinv.
          reflexivity. }
        rewrite Qmult_inv_r by exact Hnz. exact H.
      * rewrite H. now apply Qmult_inv_r.
  - intro Hall. eexists. split; [reflexivity|].
    unfold pause_time.
    rewrite pause_loop_not_silent by now apply silence_all_false.
    cbn. unfold Qdiv. ring.
Qed.

Lemma C6_pause_ratio_uniform_signals_witness :
  ([0; 0; 0] <> [] ->
   Forall (fun e => e < 1 # 50) [0; 0; 0] ->
   exists r,
     compute_total_pause_time [1; 2; 3; 4]%Z 16000 2 [0; 0; 0] (1 # 50)
     = Ok (Finite r)
     /\ r == times 16000 2 (length [0; 0; 0] - 1)
             / librosa.get_duration [1; 2; 3; 4]%Z 16000
     /\ (r == 1 <-> ((length [0; 0; 0]%Q - 1) * 2)%nat = length [1; 2; 3; 4]%Z))
  /\ (Forall (fun e => 1 # 50 <= e) [0; 0; 0] ->
      exists r,
        compute_total_pause_time [1; 2; 3; 4]%Z 16000 2 [0; 0; 0] (1 # 50)
        = Ok (Finite r)
        /\ r == 0).
Proof.
  apply (C6_pause_ratio_uniform_signals Z [1; 2; 3; 4]%Z 16000 2 [0; 0; 0] (1 # 50)).
  discriminate.
Defined.

(** C6 as stated fails on five all-silent samples analysed with a hop of two:
    [librosa.feature.rms] returns three frames, the last of which starts at
    sample four, and the ratio is [4/5], not [1]. *)
Lemma C6_all_silent_ratio_below_one :
  length [0; 0; 0] = librosa.rms_frames (length [1; 2; 3; 4; 5]%Z) 2048 2
  /\ Forall (fun e => e < 1 # 50) [0; 0; 0]
  /\ exists r,
      compute_total_pause_time [1; 2; 3; 4; 5]%Z 16000 2 [0; 0; 0] (1 # 50)
      = Ok (Finite r)
      /\ r == 4 # 5
      /\ ~ r == 1.
Proof.
  split; [reflexivity|]. split; [repeat constructor|].
  eexists. split; [reflexivity|]. split; [reflexivity | discriminate].
Qed.

(** ** The final pause (C10) *)

(** C10, as amended.  When the labels end with a silent frame, the final
    pause is measured up to [times[-1]] only: closing it at the end of the
    signal instead would add exactly [total_signal_time - times[-1]] to the
    pause time and that amount over [total_signal_time] to the ratio.  The
    returned ratio is strictly smaller exactly when the last frame starts
    before the end of the signal, and equal when it starts at the end; with
    the frame count of [librosa.feature.rms] it is never larger, and for an
    even [frame_length] the two are equal exactly when [hop_length] divides
    the length of the signal. *)
Theorem C10_final_pause_stops_at_last_frame_start :
  forall (A : Type) (y : list A) (sr : positive) (hop_length : nat)
         (energy : list Q) (silence_threshold : Q),
    y <> [] ->
    last (silence energy silence_threshold) false = true ->
    let sil := silence energy silence_threshold in
    let last_time := times sr hop_length (length energy - 1) in
    let total_signal_time := librosa.get_duration y sr in
    exists r r_end,
      compute_total_pause_time y sr hop_length energy silence_threshold
      = Ok (Finite r)
      /\ pause_ratio_to_end y sr hop_length energy silence_threshold
         = Ok (Finite r_end)
      /\ scalar_value (pause_time_to_end y sr hop_length sil)
         - scalar_value (pause_time sr hop_length sil)
         == total_signal_time - last_time
      /\ r_end - r == (total_signal_time - last_time) / total_signal_time
      /\ (r < r_end <-> ((length energy - 1) * hop_length < length y)%nat)
      /\ (r == r_end <-> ((length energy - 1) * hop_length = length y)%nat)
      /\ (forall frame_length,
             length energy = librosa.rms_frames (length y) frame_length hop_length ->
             r <= r_end)
      /\ (forall frame_length,
             Nat.even frame_length = true ->
             hop_length <> 0%nat ->
             length energy = librosa.rms_frames (length y) frame_length hop_length ->
             (r == r_end <-> (length y mod hop_length = 0)%nat)).
Proof.
  intros A y sr hop energy thr Hy Hlast sil last_time total.
  pose proof (get_duration_pos A y sr Hy) as Hpos. fold total in Hpos.
  assert (Hnz : ~ total == 0) by lra.
  unfold compute_total_pause_time, pause_ratio_to_end. fold sil total.
  rewrite !(truediv_finite _ _ Hnz).
  do 2 eexists. split; [reflexivity|]. split; [reflexivity|].
  assert (Hdiff : scalar_value (pause_time_to_end y sr hop sil)
                  - scalar_value (pause_time sr hop sil)
                  == total - last_time).
  { unfold pause_time_to_end, pause_time, close_pause. fold total.
    destruct (pause_loop_ends_silent sr hop sil Hlast 0 (PyFloat 0, None))
      as [start ->].
    cbn [iadd_np scalar_value]. subst sil last_time. unfold silence.
    rewrite length_map. ring. }
  assert (Hratio :
    scalar_value (pause_time_to_end y sr hop sil) / total
    - scalar_value (pause_time sr hop sil) / total
    == (total - last_time) / total).
  { rewrite <- Hdiff. field. exact Hnz. }
  assert (Hinv : 0 < / total) by now apply Qinv_lt_0_compat.
  assert (Hscale : forall d, d / total == d * / total) by (intro; reflexivity).
  split; [exact Hdiff|]. split; [exact Hratio|].
  set (r := scalar_value (pause_time sr hop sil) / total) in *.
  set (r_end := scalar_value (pause_time_to_end y sr hop sil) / total) in *.
  assert (Hlt : r < r_end <-> last_time < total).
  { split; intro H.
    - assert (H0 : 0 < (total - last_time) / total) by lra.
      rewrite Hscale in H0.
      destruct (Qlt_le_dec last_time total) as [|Hge]; [assumption|].
      exfalso. assert (Hle : (total - last_time) * / total <= 0 * / total).
      { apply Qmult_le_compat_r; lra. }
      lra.
    - assert (H0 : 0 < (total - last_time) * / total).
      { apply Qmult_lt_0_compat; lra. }
      rewrite <- Hscale in H0. lra. }
  assert (Heq : r == r_end <-> last_time == total).
  { split; intro H.
    - assert (H0 : (total - last_time) / total == 0) by lra.
      rewrite Hscale in H0. apply Qmult_integral in H0.
      destruct H0 as [H0|H0]; lra.
    - assert (H0 : (total - last_time) / total == 0).
      { rewrite Hscale. setoid_replace (total - last_time) with 0 by lra. ring. }
      lra. }
  split; [|split; [|split]].
  - rewrite Hlt. subst last_time total. apply times_lt_duration_iff.
  - rewrite Heq. subst last_time total. apply times_eq_duration_iff.
  - intros frame_length Hframes.
    pose proof (rms_frames_last_start (length y) frame_length hop) as Hle.
    rewrite <- Hframes in Hle.
    apply Nat.le_lteq in Hle. destruct Hle as [Hl|He].
    + apply Qlt_le_weak. apply Hlt. subst last_time total.
      now apply times_lt_duration_iff.
    + apply Qle_lteq. right. apply Heq. subst last_time total.
      now apply times_eq_duration_iff.
  - intros frame_length Heven Hhop Hframes.
    rewrite Heq. subst last_time total. rewrite times_eq_duration_iff.
    apply Nat.even_spec in Heven. destruct Heven as [k Hk].
    assert (Hn : (length energy - 1 = length y / hop)%nat).
    { rewrite Hframes. unfold librosa.rms_frames. subst frame_length.
      rewrite (Nat.mul_comm 2 k), Nat.div_mul by discriminate.
      replace (length y + 2 * k - k * 2)%nat with (length y) by lia. lia. }
    rewrite Hn.
    pose proof (Nat.div_mod_eq (length y) hop) as Hdm.
    pose proof (Nat.mod_upper_bound (length y) hop Hhop) as Hub.
    split; intro H; nia.
Qed.

Lemma C10_final_pause_stops_at_last_frame_start_witness :
  exists r r_end,
    compute_total_pause_time [1; 2; 3; 4; 5]%Z 16000 2 [1 # 10; 0; 0] (1 # 50)
    = Ok (Finite r)
    /\ pause_ratio_to_end [1; 2; 3; 4; 5]%Z 16000 2 [1 # 10; 0; 0] (1 # 50)
       = Ok (Finite r_end)
    /\ scalar_value (pause_time_to_end [1; 2; 3; 4; 5]%Z 16000 2
                       (silence [1 # 10; 0; 0] (1 # 50)))
       - scalar_value (pause_time 16000 2 (silence [1 # 10; 0; 0] (1 # 50)))
       == librosa.get_duration [1; 2; 3; 4; 5]%Z 16000
          - times 16000 2 (length [1 # 10; 0; 0] - 1)
    /\ r_end - r
       == (librosa.get_duration [1; 2; 3; 4; 5]%Z 16000
           - times 16000 2 (length [1 # 10; 0; 0] - 1))
          / librosa.get_duration [1; 2; 3; 4; 5]%Z 16000
    /\ (r < r_end
        <-> ((length [1 # 10; 0; 0]%Q - 1) * 2 < length [1; 2; 3; 4; 5]%Z)%nat)
    /\ (r == r_end
        <-> ((length [1 # 10; 0; 0]%Q - 1) * 2 = length [1; 2; 3; 4; 5]%Z)%nat)
    /\ (forall frame_length,
           length [1 # 10; 0; 0]
           = librosa.rms_frames (length [1; 2; 3; 4; 5]%Z) frame_length 2 ->
           r <= r_end)
    /\ (forall frame_length,
           Nat.even frame_length = true ->
           2%nat <> 0%nat ->
           length [1 # 10; 0; 0]
           = librosa.rms_frames (length [1; 2; 3; 4; 5]%Z) frame_length 2 ->
           (r == r_end <-> (length [1; 2; 3; 4; 5]%Z mod 2 = 0)%nat)).
Proof.
  apply (C10_final_pause_stops_at_last_frame_start
           Z [1; 2; 3; 4; 5]%Z 16000 2 [1 # 10; 0; 0] (1 # 50)).
  - discriminate.
  - reflexivity.
Defined.

(** C10 as stated fails when the last frame starts at the end of the signal:
    on four samples analysed with a hop of two and the default frame length,
    [librosa.feature.rms] returns three frames, [times[-1]] is the end of the
    signal, and the returned ratio equals the end-of-signal ratio instead of
    being strictly smaller. *)
Lemma C10_ratio_not_strictly_smaller :
  length [0; 0; 0] = librosa.rms_frames (length [1; 2; 3; 4]%Z) 2048 2
  /\ last (silence [0; 0; 0] (1 # 50)) false = true
  /\ exists r r_end,
      compute_total_pause_time [1; 2; 3; 4]%Z 16000 2 [0; 0; 0] (1 # 50)
      = Ok (Finite r)
      /\ pause_ratio_to_end [1; 2; 3; 4]%Z 16000 2 [0; 0; 0] (1 # 50)
         = Ok (Finite r_end)
      /\ ~ r < r_end.
Proof.
  split; [reflexivity|]. split; [reflexivity|].
  do 2 eexists. split; [reflexivity|]. split; [reflexivity|].
  intro H. discriminate H.
Qed.

(** ** Pause time and the silent regions (C4) *)

Lemma last_cons (B : Type) (x x' : B) (l : list B) (d : B) :
  last (x :: x' :: l) d = last (x' :: l) d.
Proof. reflexivity. Qed.

(** The last region of an encoding carries the label of the last frame. *)
Lemma runLengthEncode_from_last (labels : list bool) :
  forall i,
    last (map label (runLengthEncode_from i labels)) false = last labels false.
Proof.
  induction labels as [|l rest IH]; intro i; [reflexivity|].
  specialize (IH (S i)). cbn [runLengthEncode_from].
  destruct (runLengthEncode_from (S i) rest) as [|r rs] eqn:Hrle.
  - apply runLengthEncode_from_nil in Hrle. now subst rest.
  - destruct rest as [|l' rest']; [discriminate Hrle|].
    rewrite last_cons, <- IH.
    destruct (Bool.eqb (label r) l) eqn:Heq.
    + apply Bool.eqb_prop in Heq.
      destruct rs as [|r' rs']; [cbn; now rewrite Heq | reflexivity].
    + reflexivity.
Qed.

(** Evaluates the sums over regions once the label of the head region is
    known. *)
Ltac regions_cases :=
  cbn [Bool.eqb regions_seconds open_seconds label end_frame];
  repeat match goal with
         | H : label _ = _ |- _ => rewrite !H
         end;
  cbn [Bool.eqb regions_seconds open_seconds label end_frame].

Section PauseRegionFacts.
Variable sr : positive.
Variable hop_length : nat.

(** What the loop and a closing step at [end_time] accumulate from frame [i]
    on, in a closed state and with a pause open since frame [k], is the
    summed duration of the silent regions met, the final one ended at
    [end_time]. *)
Lemma pause_loop_regions (end_time : Q) (sil : list bool) :
  forall i,
    scalar_value
      (close_pause end_time (pause_loop sr hop_length sil i (PyFloat 0, None)))
    == regions_seconds sr hop_length end_time (runLengthEncode_from i sil)
    /\ forall k,
        scalar_value
          (close_pause end_time
             (pause_loop sr hop_length sil i
                (PyFloat 0, Some (times sr hop_length k))))
        == open_seconds sr hop_length end_time k i (runLengthEncode_from i sil).
Proof.
  induction sil as [|s rest IH]; intro i.
  - cbn. split; [reflexivity | intro k; ring].
  - destruct (IH (S i)) as [IHclosed IHopen].
    split; [|intro k]; destruct s; cbn [pause_loop pause_step fst snd];
      rewrite close_pause_acc, ?IHopen, ?IHclosed;
      cbn [runLengthEncode_from iadd_np scalar_value];
      destruct (runLengthEncode_from (S i) rest) as [|r [|r' rs]];
      try (destruct (label r) eqn:Hr);
      regions_cases; unfold region_seconds; cbn [first_frame end_frame];
      ring.
Qed.

(** The pause time of the routine: the final region is ended at
    [times[-1]]. *)
Lemma pause_time_regions (sil : list bool) :
  scalar_value (pause_time sr hop_length sil)
  == regions_seconds sr hop_length (times sr hop_length (length sil - 1))
       (runLengthEncode sil).
Proof.
  unfold pause_time, runLengthEncode.
  apply (pause_loop_regions (times sr hop_length (length sil - 1)) sil 0).
Qed.

(** Moving the end of the final region moves the sum by as much when that
    region is labelled [true], and not at all otherwise. *)
Lemma regions_seconds_end (t t' : Q) (regions : list region) :
  regions_seconds sr hop_length t' regions
  - regions_seconds sr hop_length t regions
  == if last (map label regions) false then t' - t else 0.
Proof.
  induction regions as [|r rs IH].
  - cbn. ring.
  - destruct rs as [|r' rs].
    + cbn [regions_seconds map last]. unfold region_seconds.
      destruct (label r); ring.
    + change (last (map label (r :: r' :: rs)) false)
        with (last (map label (r' :: rs)) false).
      rewrite <- IH.
      change (regions_seconds sr hop_length t' (r :: r' :: rs))
        with (if label r
              then region_seconds sr hop_length t' r false
                   + regions_seconds sr hop_length t' (r' :: rs)
              else regions_seconds sr hop_length t' (r' :: rs)).
      change (regions_seconds sr hop_length t (r :: r' :: rs))
        with (if label r
              then region_seconds sr hop_length t r false
                   + regions_seconds sr hop_length t (r' :: rs)
              else regions_seconds sr hop_length t (r' :: rs)).
      unfold region_seconds. destruct (label r); ring.
Qed.
End PauseRegionFacts.

(** C4, as amended.  On every signal of non-zero duration
    [compute_total_pause_time] divides by the total duration [len(y) / sr],
    never by a speech-only duration; what it divides is the summed duration
    of the silent regions with the final region ended at [times[-1]], the
    start of the last frame, so it falls short of the sum over the regions
    that tile the signal by [total - times[-1]] whenever the last frame is
    silent.  The diarization ratio divides the pause duration by the main
    speaker's speech duration; for the same positive pause and a speech
    duration shorter than the total duration it is strictly larger. *)
Theorem C4_pause_ratio_normalizations :
  forall (A : Type) (y : list A) (sr : positive) (hop_length : nat)
         (energy : list Q) (silence_threshold : Q),
    y <> [] ->
    let sil := silence energy silence_threshold in
    let regions := runLengthEncode sil in
    let total_duration := Z.of_nat (length y) # sr in
    let last_time := times sr hop_length (length energy - 1) in
    let pause_duration := regions_seconds sr hop_length last_time regions in
    exists r,
      compute_total_pause_time y sr hop_length energy silence_threshold
      = Ok (Finite r)
      /\ r == pause_duration / total_duration
      /\ regions_seconds sr hop_length total_duration regions / total_duration
         - r
         == (if last sil false then total_duration - last_time else 0)
            / total_duration
      /\ (forall speech_duration,
             0 < pause_duration ->
             0 < speech_duration ->
             speech_duration < total_duration ->
             exists r',
               diarization_pause_ratio pause_duration speech_duration = Some r'
               /\ r' == pause_duration / speech_duration
               /\ r < r').
Proof.
  intros A y sr hop energy thr Hy sil regions T last_time P.
  assert (HTpos : 0 < T).
  { pose proof (get_duration_pos A y sr Hy) as Hpos. exact Hpos. }
  assert (HT : ~ T == 0) by lra.
  unfold compute_total_pause_time.
  change (librosa.get_duration y sr) with T.
  rewrite (truediv_finite _ _ HT). eexists. split; [reflexivity|].
  assert (HrP : scalar_value (pause_time sr hop (silence energy thr)) / T
                == P / T).
  { rewrite pause_time_regions. subst P last_time regions sil.
    unfold silence. rewrite length_map. reflexivity. }
  split; [exact HrP|]. split.
  - rewrite HrP.
    pose proof (regions_seconds_end sr hop last_time T regions) as Hend.
    subst regions. unfold runLengthEncode in Hend.
    rewrite runLengthEncode_from_last in Hend. fold sil in Hend.
    fold (runLengthEncode sil) in Hend. fold P in Hend.
    rewrite <- Hend. field. exact HT.
  - intros S HP HS HST. unfold diarization_pause_ratio.
    destruct (Qeq_bool S 0) eqn:E.
    { apply Qeq_bool_eq in E. lra. }
    eexists. split; [reflexivity|]. split; [reflexivity|].
    rewrite HrP. unfold Qdiv. apply Qmult_lt_l; [exact HP|].
    assert (HinvS : 0 < / S) by now apply Qinv_lt_0_compat.
    assert (HinvT : 0 < / T) by now apply Qinv_lt_0_compat.
    setoid_replace (/ T) with (S * (/ S * / T)) by (field; split; lra).
    setoid_replace (/ S) with (T * (/ S * / T)) at 2 by (field; split; lra).
    apply Qmult_lt_compat_r; [|exact HST].
    apply Qmult_lt_0_compat; assumption.
Qed.

Lemma C4_pause_ratio_normalizations_witness :
  exists r,
    compute_total_pause_time [1; 2; 3; 4; 5]%Z 16000 2
      [1 # 100; 1 # 100; 1 # 10] (1 # 50)
    = Ok (Finite r)
    /\ r == regions_seconds 16000 2
              (times 16000 2 (length [1 # 100; 1 # 100; 1 # 10] - 1))
              (runLengthEncode (silence [1 # 100; 1 # 100; 1 # 10] (1 # 50)))
            / (Z.of_nat (length [1; 2; 3; 4; 5]%Z) # 16000)
    /\ regions_seconds 16000 2 (Z.of_nat (length [1; 2; 3; 4; 5]%Z) # 16000)
         (runLengthEncode (silence [1 # 100; 1 # 100; 1 # 10] (1 # 50)))
       / (Z.of_nat (length [1; 2; 3; 4; 5]%Z) # 16000)
       - r
       == (if last (silence [1 # 100; 1 # 100; 1 # 10] (1 # 50)) false
           then (Z.of_nat (length [1; 2; 3; 4; 5]%Z) # 16000)
                - times 16000 2 (length [1 # 100; 1 # 100; 1 # 10] - 1)
           else 0)
          / (Z.of_nat (length [1; 2; 3; 4; 5]%Z) # 16000)
    /\ (forall speech_duration,
           0 < regions_seconds 16000 2
                 (times 16000 2 (length [1 # 100; 1 # 100; 1 # 10] - 1))
                 (runLengthEncode
                    (silence [1 # 100; 1 # 100; 1 # 10] (1 # 50))) ->
           0 < speech_duration ->
           speech_duration < Z.of_nat (length [1; 2; 3; 4; 5]%Z) # 16000 ->
           exists r',
             diarization_pause_ratio
               (regions_seconds 16000 2
                  (times 16000 2 (length [1 # 100; 1 # 100; 1 # 10] - 1))
                  (runLengthEncode
                     (silence [1 # 100; 1 # 100; 1 # 10] (1 # 50))))
               speech_duration
             = Some r'
             /\ r' == regions_seconds 16000 2
                        (times 16000 2 (length [1 # 100; 1 # 100; 1 # 10] - 1))
                        (runLengthEncode
                           (silence [1 # 100; 1 # 100; 1 # 10] (1 # 50)))
                      / speech_duration
             /\ r < r').
Proof.
  apply (C4_pause_ratio_normalizations
           Z [1; 2; 3; 4; 5]%Z 16000 2 [1 # 100; 1 # 100; 1 # 10] (1 # 50)).
  discriminate.
Defined.

(** C4 as stated fails on five all-silent samples analysed with a hop of two
    (three frames): the one silent region tiles the whole signal, so the
    summed duration of the silent regions over the total duration is [1],
    while the routine, which ends the region at [times[-1]], returns
    [4/5]. *)
Lemma C4_ratio_not_silent_regions_over_total :
  length [0; 0; 0] = librosa.rms_frames (length [1; 2; 3; 4; 5]%Z) 2048 2
  /\ regions_seconds 16000 2 (Z.of_nat (length [1; 2; 3; 4; 5]%Z) # 16000)
       (runLengthEncode (silence [0; 0; 0] (1 # 50)))
     / (Z.of_nat (length [1; 2; 3; 4; 5]%Z) # 16000)
     == 1
  /\ exists r,
      compute_total_pause_time [1; 2; 3; 4; 5]%Z 16000 2 [0; 0; 0] (1 # 50)
      = Ok (Finite r)
      /\ r == 4 # 5
      /\ ~ r == regions_seconds 16000 2
                  (Z.of_nat (length [1; 2; 3; 4; 5]%Z) # 16000)
                  (runLengthEncode (silence [0; 0; 0] (1 # 50)))
                / (Z.of_nat (length [1; 2; 3; 4; 5]%Z) # 16000).
Proof.
  split; [reflexivity|]. split; [reflexivity|].
  eexists. split; [reflexivity|]. split; [reflexivity | discriminate].
Qed.

(** ** Main speaker (C9) *)

Section MainSpeakerFacts.
Variable label_duration : string -> Q.

Lemma select_step_inv (speaker0 : string) (seen : list string)
      (st : Q * string) (x : string) :
  select_inv label_duration speaker0 seen st ->
  select_inv label_duration speaker0 (seen ++ [x]) (select_step label_duration st x).
Proof.
  intros Hinv. unfold select_step.
  destruct (Qgt_bool (label_duration x) (fst st)) eqn:Hgt.
  - apply Qgt_bool_iff in Hgt. right. cbn [fst snd].
    destruct Hinv as [[-> Hall] | (Hmx & Hpos & pre & post & -> & Hpre & Hpost)].
    + cbn in Hgt. split; [reflexivity|]. split; [exact Hgt|].
      exists seen, []. split; [reflexivity|]. split; [|contradiction].
      intros s Hs. specialize (Hall s Hs). lra.
    + rewrite Hmx in Hgt. split; [reflexivity|]. split; [lra|].
      exists (pre ++ snd st :: post), []. split; [reflexivity|].
      split; [|contradiction].
      intros s Hs. apply in_app_or in Hs. destruct Hs as [Hs|[<-|Hs]].
      * specialize (Hpre s Hs). lra.
      * exact Hgt.
      * specialize (Hpost s Hs). lra.
  - apply Qgt_bool_false_iff in Hgt.
    destruct Hinv as [[-> Hall] | (Hmx & Hpos & pre & post & -> & Hpre & Hpost)].
    + left. split; [reflexivity|]. cbn in Hgt.
      intros s Hs. apply in_app_or in Hs. destruct Hs as [Hs|[<-|[]]]; auto.
    + right. rewrite Hmx in Hgt. split; [exact Hmx|]. split; [exact Hpos|].
      exists pre, (post ++ [x]). split; [now rewrite <- app_assoc|].
      split; [exact Hpre|].
      intros s Hs. apply in_app_or in Hs. destruct Hs as [Hs|[<-|[]]]; auto.
Qed.

Lemma select_loop_inv (speaker0 : string) (speakers : list string) :
  forall seen st,
    select_inv label_duration speaker0 seen st ->
    select_inv label_duration speaker0 (seen ++ speakers)
      (fold_left (select_step label_duration) speakers st).
Proof.
  induction speakers as [|x rest IH]; intros seen st Hinv; cbn.
  - now rewrite app_nil_r.
  - replace (seen ++ x :: rest) with ((seen ++ [x]) ++ rest)
      by now rewrite <- app_assoc.
    apply IH. now apply select_step_inv.
Qed.
End MainSpeakerFacts.

(** C9.  On a non-empty list of labels with non-negative summed durations,
    the label selected has the largest duration and is the first of the list
    to have it: every label before it is strictly shorter, every label after
    it is no longer.  In particular, of two labels with equal durations the
    first is selected. *)
Theorem C9_main_speaker_first_maximal :
  forall (label_duration : string -> Q),
    (forall speakers,
        speakers <> [] ->
        (forall s, In s speakers -> 0 <= label_duration s) ->
        exists main pre post,
          main_speaker label_duration speakers = Some main
          /\ speakers = pre ++ main :: post
          /\ (forall s, In s pre -> label_duration s < label_duration main)
          /\ (forall s, In s post -> label_duration s <= label_duration main))
    /\ (forall a b,
           0 <= label_duration a ->
           label_duration a == label_duration b ->
           main_speaker label_duration [a; b] = Some a).
Proof.
  intro dur.
  assert (Hgen : forall speakers,
             speakers <> [] ->
             (forall s, In s speakers -> 0 <= dur s) ->
             exists main pre post,
               main_speaker dur speakers = Some main
               /\ speakers = pre ++ main :: post
               /\ (forall s, In s pre -> dur s < dur main)
               /\ (forall s, In s post -> dur s <= dur main)).
  { intros speakers Hne Hnonneg.
    destruct speakers as [|s0 rest]; [contradiction|].
    unfold main_speaker.
    destruct (1 <? length (s0 :: rest))%nat eqn:Hmulti.
    - pose proof (select_loop_inv dur s0 (s0 :: rest) [] (0, s0)) as Hinv.
      cbn [app] in Hinv.
      destruct Hinv as [[Hst Hall] | (_ & _ & pre & post & Hsplit & Hpre & Hpost)].
      + left. split; [reflexivity | contradiction].
      + rewrite Hst. cbn [snd]. exists s0, [], rest.
        split; [reflexivity|]. split; [reflexivity|]. split; [contradiction|].
        intros s Hs. pose proof (Hall s (or_intror Hs)).
        pose proof (Hnonneg s0 (or_introl eq_refl)). lra.
      + eexists _, pre, post. split; [reflexivity|]. now split.
    - exists s0, [], rest. apply Nat.ltb_ge in Hmulti.
      destruct rest; [|cbn in Hmulti; lia].
      split; [reflexivity|]. split; [reflexivity|]. split; contradiction. }
  split; [exact Hgen|].
  intros a b Ha Hab. unfold main_speaker. cbn [length Nat.ltb Nat.leb fold_left].
  unfold select_step at 2. cbn [fst snd].
  destruct (Qgt_bool (dur a) 0) eqn:Ea; unfold select_step; cbn [fst snd].
  - assert (Eb : Qgt_bool (dur b) (dur a) = false)
      by (apply Qgt_bool_false_iff; lra).
    now rewrite Eb.
  - apply Qgt_bool_false_iff in Ea.
    assert (Eb : Qgt_bool (dur b) 0 = false)
      by (apply Qgt_bool_false_iff; lra).
    now rewrite Eb.
Qed.

Lemma C9_main_speaker_first_maximal_witness :
  (exists main pre post,
      main_speaker (fun _ => 5) ["A"; "B"]%string = Some main
      /\ ["A"; "B"]%string = pre ++ main :: post
      /\ (forall s, In s pre -> 5 < 5)
      /\ (forall s, In s post -> 5 <= 5))
  /\ main_speaker (fun _ => 5) ["A"; "B"]%string = Some "A"%string.
Proof.
  destruct (C9_main_speaker_first_maximal (fun _ => 5)) as [Hgen Htie].
  split.
  - apply (Hgen ["A"; "B"]%string); [discriminate | intros; discriminate].
  - apply (Htie "A"%string "B"%string); [discriminate | reflexivity].
Defined.

(** * Further properties of the routines *)

(** ** strip_silence, frame by frame *)

Section SliceFacts.
Context {A : Type}.

Lemma skipn_firstn_add (y : list A) :
  forall a b h,
    (a <= b)%nat ->
    skipn a (firstn (b + h) y)
    = skipn a (firstn b y) ++ firstn h (skipn b y).
Proof.
  induction y as [|x y IH]; intros a b h Hab.
  - now rewrite !skipn_nil, !firstn_nil, !skipn_nil.
  - destruct b as [|b].
    + replace a with 0%nat by lia. reflexivity.
    + destruct a as [|a]; cbn.
      * f_equal. apply (IH 0%nat b h). lia.
      * apply IH. lia.
Qed.

Lemma skipn_firstn_skipn (y : list A) :
  forall a b,
    (a <= b)%nat ->
    skipn a y = skipn a (firstn b y) ++ skipn b y.
Proof.
  induction y as [|x y IH]; intros a b Hab.
  - now rewrite firstn_nil, !skipn_nil.
  - destruct b as [|b].
    + replace a with 0%nat by lia. reflexivity.
    + destruct a as [|a]; cbn.
      * f_equal. apply (IH 0%nat b). lia.
      * apply IH. lia.
Qed.
End SliceFacts.

Section StripFrameFacts.
Context {A : Type}.
Variable y : list A.
Variable hop_length : nat.

Lemma strip_loop_cons (f : bool) (rest : list bool) (i : nat) st :
  strip_loop y hop_length (f :: rest) i st
  = strip_loop y hop_length rest (S i) (strip_step y hop_length st i f).
Proof. reflexivity. Qed.

Lemma active_frame_samples_cons (l g : bool) (rest : list bool) (z : list A) :
  active_frame_samples hop_length (l :: g :: rest) z
  = (if l then firstn hop_length z else [])
    ++ active_frame_samples hop_length (g :: rest) (skipn hop_length z).
Proof. reflexivity. Qed.

(** What the loop and the closing step keep from frame [i] on, in a closed
    state and with a region open since frame [k]. *)
Lemma strip_loop_frames (rest : list bool) :
  forall f i,
    concat (close_region y (strip_loop y hop_length (f :: rest) i ([], None)))
    = active_frame_samples hop_length (f :: rest) (skipn (i * hop_length) y)
    /\ forall k,
        (k <= i)%nat ->
        concat (close_region y
                  (strip_loop y hop_length (f :: rest) i
                     ([], Some (k * hop_length)%nat)))
        = np.slice y (k * hop_length) (i * hop_length)
          ++ active_frame_samples hop_length (f :: rest)
               (skipn (i * hop_length) y).
Proof.
  induction rest as [|g rest IH]; intros f i.
  - split; [|intros k Hk]; destruct f; cbn; unfold np.slice_from, np.slice;
      rewrite ?app_nil_r; try reflexivity.
    apply skipn_firstn_skipn. nia.
  - destruct (IH g (S i)) as [IHclosed IHopen].
    assert (Hnext : (S i * hop_length = i * hop_length + hop_length)%nat) by lia.
    split; [|intros k Hk]; destruct f;
      rewrite strip_loop_cons, active_frame_samples_cons;
      cbn [strip_step fst snd].
    + unfold librosa.frames_to_samples.
      rewrite (IHopen i ltac:(lia)), skipn_skipn.
      unfold np.slice. rewrite Hnext, (Nat.add_comm hop_length).
      now rewrite <- firstn_skipn_comm.
    + rewrite IHclosed, skipn_skipn, Hnext, (Nat.add_comm hop_length).
      reflexivity.
    + rewrite (IHopen k ltac:(lia)), skipn_skipn.
      unfold np.slice. rewrite Hnext, (Nat.add_comm hop_length).
      rewrite skipn_firstn_add by nia. now rewrite <- app_assoc.
    + rewrite close_region_parts. cbn [app concat].
      rewrite IHclosed, skipn_skipn, Hnext, (Nat.add_comm hop_length).
      unfold librosa.frames_to_samples. reflexivity.
Qed.

Lemma non_silent_audio_frames (labels : list bool) :
  concat (non_silent_audio y hop_length labels)
  = active_frame_samples hop_length labels y.
Proof.
  destruct labels as [|f rest]; [reflexivity|].
  unfold non_silent_audio.
  now rewrite (proj1 (strip_loop_frames rest f 0)).
Qed.

Lemma non_silent_audio_nil_iff (labels : list bool) :
  non_silent_audio y hop_length labels = [] <-> existsb (fun b => b) labels = false.
Proof.
  rewrite non_silent_audio_regions. split.
  - intro Hnil. destruct (existsb (fun b => b) labels) eqn:E; [|reflexivity].
    apply existsb_exists in E. destruct E as (b & Hin & ->).
    now apply (active_spans_nonempty y hop_length labels 0) in Hin.
  - intro Hnone. rewrite <- non_silent_audio_regions. unfold non_silent_audio.
    rewrite strip_loop_silent; [reflexivity|].
    apply Forall_forall. intros b Hb.
    destruct b; [|reflexivity].
    assert (existsb (fun b => b) labels = true)
      by (apply existsb_exists; now exists true).
    congruence.
Qed.

Lemma active_frame_samples_length_le (labels : list bool) :
  forall z : list A,
    (length (active_frame_samples hop_length labels z) <= length z)%nat.
Proof.
  induction labels as [|l rest IH]; intro z; [cbn; lia|].
  destruct rest as [|g rest].
  - destruct l; cbn; lia.
  - rewrite active_frame_samples_cons, length_app.
    specialize (IH (skipn hop_length z)). rewrite length_skipn in IH.
    destruct l; [rewrite length_firstn|]; cbn [length]; lia.
Qed.

Lemma active_frame_samples_length (labels : list bool) :
  forall z : list A,
    ((length labels - 1) * hop_length <= length z)%nat ->
    length (active_frame_samples hop_length labels z)
    = (count_frames (removelast labels) * hop_length
       + if last labels false
         then length z - (length labels - 1) * hop_length
         else 0)%nat.
Proof.
  induction labels as [|l rest IH]; intros z Hz; [reflexivity|].
  destruct rest as [|g rest].
  - destruct l; cbn; lia.
  - cbn [length] in Hz.
    assert (Hz' : ((length (g :: rest) - 1) * hop_length
                   <= length (skipn hop_length z))%nat).
    { rewrite length_skipn. cbn [length]. nia. }
    specialize (IH (skipn hop_length z) Hz'). rewrite length_skipn in IH.
    rewrite active_frame_samples_cons, length_app, IH.
    change (removelast (l :: g :: rest)) with (l :: removelast (g :: rest)).
    change (last (l :: g :: rest) false) with (last (g :: rest) false).
    unfold count_frames. cbn [length] in *.
    destruct l; cbn [filter length]; [rewrite length_firstn|];
      destruct (last (g :: rest) false); nia.
Qed.
End StripFrameFacts.

Lemma existsb_labels (B : Type) (f : B -> bool) (l : list B) :
  existsb (fun b => b) (map f l) = existsb f l.
Proof. induction l as [|x l IH]; cbn; [reflexivity | now rewrite IH]. Qed.

(** X1.  [strip_silence] keeps exactly the samples of the active frames,
    frame [i] owning the samples from [i * hop_length] up to the start of the
    next frame and the last frame owning the rest of the signal; it raises
    exactly when there is no active frame. *)
Theorem strip_silence_keeps_active_frame_samples :
  forall (A : Type) (y : list A) (sr : positive) (hop_length : nat)
         (energy : list Q) (silence_threshold : Q),
    strip_silence y hop_length sr energy silence_threshold
    = if existsb (fun e => Qgt_bool e silence_threshold) energy
      then Ok (active_frame_samples hop_length
                 (non_silent_frames energy silence_threshold) y)
      else Raise ValueError.
Proof.
  intros A y sr hop energy thr. unfold strip_silence.
  pose proof (non_silent_audio_frames y hop (non_silent_frames energy thr)) as Hc.
  pose proof (non_silent_audio_nil_iff y hop (non_silent_frames energy thr)) as Hn.
  unfold non_silent_frames in Hn at 2. rewrite existsb_labels in Hn.
  destruct (existsb (fun e => Qgt_bool e thr) energy).
  - destruct (non_silent_audio y hop (non_silent_frames energy thr)) as [|p ps].
    + destruct Hn as [Hn _]. discriminate (Hn eq_refl).
    + cbn [np.concatenate]. now rewrite Hc.
  - destruct Hn as [_ Hn]. now rewrite (Hn eq_refl).
Qed.

Lemma strip_silence_inv (A : Type) (y : list A) (sr : positive)
      (hop_length : nat) (energy : list Q) (thr : Q) (out : list A) :
  strip_silence y hop_length sr energy thr = Ok out ->
  out = active_frame_samples hop_length (non_silent_frames energy thr) y.
Proof.
  unfold strip_silence. rewrite <- non_silent_audio_frames.
  destruct (non_silent_audio y hop_length (non_silent_frames energy thr));
    [discriminate|].
  intro H. now injection H as <-.
Qed.

Lemma strip_silence_raises_nil (A : Type) (y : list A) (sr : positive)
      (hop_length : nat) (energy : list Q) (thr : Q) :
  strip_silence y hop_length sr energy thr = Raise ValueError
  <-> existsb (fun e => Qgt_bool e thr) energy = false.
Proof.
  rewrite <- (existsb_labels Q (fun e => Qgt_bool e thr) energy).
  fold (non_silent_frames energy thr).
  rewrite <- (non_silent_audio_nil_iff y hop_length).
  unfold strip_silence.
  destruct (non_silent_audio y hop_length (non_silent_frames energy thr));
    split; intro H; try reflexivity; discriminate.
Qed.

(** X2.  [strip_silence] raises exactly when no frame's energy exceeds the
    threshold; in every other case it returns a signal. *)
Theorem strip_silence_raises_iff :
  forall (A : Type) (y : list A) (sr : positive) (hop_length : nat)
         (energy : list Q) (silence_threshold : Q),
    (strip_silence y hop_length sr energy silence_threshold = Raise ValueError
     <-> Forall (fun e => e <= silence_threshold) energy)
    /\ ((exists out,
            strip_silence y hop_length sr energy silence_threshold = Ok out)
        <-> exists e, In e energy /\ silence_threshold < e).
Proof.
  intros A y sr hop energy thr.
  pose proof (strip_silence_raises_nil A y sr hop energy thr) as Hraise.
  destruct (existsb (fun e => Qgt_bool e thr) energy) eqn:E.
  - apply existsb_exists in E. destruct E as (e & Hin & He).
    apply Qgt_bool_iff in He.
    assert (Hok : exists out, strip_silence y hop sr energy thr = Ok out).
    { destruct (strip_silence y hop sr energy thr) as [out|[]] eqn:Hs.
      - now exists out.
      - destruct Hraise as [Hraise _]. discriminate (Hraise eq_refl).
      - unfold strip_silence, np.concatenate in Hs.
        destruct (non_silent_audio y hop (non_silent_frames energy thr));
          discriminate. }
    split; split.
    + intro Hs. destruct Hraise as [Hraise _]. discriminate (Hraise Hs).
    + intro Hall. rewrite Forall_forall in Hall. specialize (Hall e Hin). lra.
    + intros _. now exists e.
    + intros _. exact Hok.
  - assert (Hall : Forall (fun e => e <= thr) energy).
    { apply Forall_forall. intros e Hin. apply Qgt_bool_false_iff.
      destruct (Qgt_bool e thr) eqn:He; [|reflexivity].
      assert (existsb (fun e => Qgt_bool e thr) energy = true)
        by (apply existsb_exists; now exists e).
      congruence. }
    destruct Hraise as [_ Hraise]. specialize (Hraise eq_refl).
    split; split.
    + intros _. exact Hall.
    + intros _. exact Hraise.
    + intros [out Hout]. congruence.
    + intros (e & Hin & He). rewrite Forall_forall in Hall.
      specialize (Hall e Hin). lra.
Qed.

(** X3.  Whatever [strip_silence] returns is no longer than the input. *)
Theorem strip_silence_length_le :
  forall (A : Type) (y : list A) (sr : positive) (hop_length : nat)
         (energy : list Q) (silence_threshold : Q) (out : list A),
    strip_silence y hop_length sr energy silence_threshold = Ok out ->
    (length out <= length y)%nat.
Proof.
  intros A y sr hop energy thr out Hout.
  apply strip_silence_inv in Hout. subst out.
  apply active_frame_samples_length_le.
Qed.

Lemma strip_silence_length_le_witness :
  (length [1; 2; 5]%Z <= length [1; 2; 3; 4; 5]%Z)%nat.
Proof.
  apply (strip_silence_length_le Z [1; 2; 3; 4; 5]%Z 16000 2
           [1 # 10; 1 # 100; 1 # 10] (1 # 50) [1; 2; 5]%Z).
  reflexivity.
Defined.

(** X4.  With the frames [librosa.feature.rms] returns for the signal, the
    output of [strip_silence] has [hop_length] samples for every active
    frame but the last, plus, when the last frame is active, all the samples
    from its start to the end of the signal. *)
Theorem strip_silence_length :
  forall (A : Type) (y : list A) (sr : positive) (frame_length hop_length : nat)
         (energy : list Q) (silence_threshold : Q) (out : list A),
    length energy = librosa.rms_frames (length y) frame_length hop_length ->
    strip_silence y hop_length sr energy silence_threshold = Ok out ->
    let labels := non_silent_frames energy silence_threshold in
    length out
    = (count_frames (removelast labels) * hop_length
       + if last labels false
         then length y - (length energy - 1) * hop_length
         else 0)%nat.
Proof.
  intros A y sr fl hop energy thr out Hframes Hout labels.
  apply strip_silence_inv in Hout. subst out. fold labels.
  assert (Hlen : length labels = length energy)
    by (subst labels; unfold non_silent_frames; apply length_map).
  rewrite <- Hlen. apply active_frame_samples_length.
  rewrite Hlen, Hframes. apply rms_frames_last_start.
Qed.

Lemma strip_silence_length_witness :
  length [1; 2; 5]%Z
  = (count_frames
       (removelast (non_silent_frames [1 # 10; 1 # 100; 1 # 10] (1 # 50))) * 2
     + if last (non_silent_frames [1 # 10; 1 # 100; 1 # 10] (1 # 50)) false
       then length [1; 2; 3; 4; 5]%Z
            - (length [1 # 10; 1 # 100; 1 # 10]%Q - 1) * 2
       else 0)%nat.
Proof.
  apply (strip_silence_length Z [1; 2; 3; 4; 5]%Z 16000 2048 2
           [1 # 10; 1 # 100; 1 # 10] (1 # 50) [1; 2; 5]%Z);
    reflexivity.
Defined.

(** ** compute_total_pause_time, frame by frame *)

Lemma Qmake_nat_eq (sr : positive) (a b : nat) :
  a = b -> Z.of_nat a # sr == Z.of_nat b # sr.
Proof. now intros ->. Qed.

Lemma Qmake_nat_add (sr : positive) (a b : nat) :
  (Z.of_nat a # sr) + (Z.of_nat b # sr) == Z.of_nat (a + b) # sr.
Proof.
  unfold Qeq, Qplus. cbn [Qnum Qden].
  rewrite Nat2Z.inj_add, Pos2Z.inj_mul. ring.
Qed.

Lemma times_sub (sr : positive) (hop_length i k : nat) :
  (k <= i)%nat ->
  times sr hop_length i - times sr hop_length k
  == Z.of_nat ((i - k) * hop_length) # sr.
Proof.
  intro Hk. unfold times, librosa.frames_to_time, librosa.frames_to_samples.
  unfold Qeq, Qminus, Qplus, Qopp. cbn [Qnum Qden].
  rewrite Pos2Z.inj_mul, !Nat2Z.inj_mul, Nat2Z.inj_sub by exact Hk. ring.
Qed.

Lemma count_frames_le (labels : list bool) :
  (count_frames labels <= length labels)%nat.
Proof. unfold count_frames. apply filter_length_le. Qed.

Section PauseFrameFacts.
Variable sr : positive.
Variable hop_length : nat.

Lemma pause_loop_cons (s : bool) (rest : list bool) (i : nat) st :
  pause_loop sr hop_length (s :: rest) i st
  = pause_loop sr hop_length rest (S i) (pause_step sr hop_length st i s).
Proof. reflexivity. Qed.

(** What the loop and the closing step accumulate from frame [i] on, in a
    closed state and with a pause open since frame [k]: [hop_length] samples
    for every silent frame, the last frame excepted. *)
Lemma pause_loop_count (rest : list bool) :
  forall s i n,
    (i + length (s :: rest))%nat = n ->
    scalar_value
      (close_pause (times sr hop_length (n - 1))
         (pause_loop sr hop_length (s :: rest) i (PyFloat 0, None)))
    == Z.of_nat (count_frames (removelast (s :: rest)) * hop_length) # sr
    /\ forall k,
        (k <= i)%nat ->
        scalar_value
          (close_pause (times sr hop_length (n - 1))
             (pause_loop sr hop_length (s :: rest) i
                (PyFloat 0, Some (times sr hop_length k))))
        == Z.of_nat ((i - k + count_frames (removelast (s :: rest)))
                     * hop_length) # sr.
Proof.
  induction rest as [|g rest IH]; intros s i n Hn.
  - cbn [length] in Hn. replace (n - 1)%nat with i by lia.
    split; [|intros k Hk]; destruct s;
      cbn [pause_loop pause_step close_pause iadd_np scalar_value fst snd
           removelast];
      rewrite ?times_sub by lia; rewrite ?Qplus_0_l;
      unfold count_frames; cbn [filter length];
      first [ apply Qmake_nat_eq; nia | reflexivity ].
  - destruct (IH g (S i) n ltac:(cbn [length] in *; lia)) as [IHclosed IHopen].
    change (removelast (s :: g :: rest)) with (s :: removelast (g :: rest)).
    split; [|intros k Hk]; destruct s;
      rewrite pause_loop_cons; cbn [pause_step fst snd].
    + rewrite (IHopen i ltac:(lia)). apply Qmake_nat_eq.
      unfold count_frames. cbn [filter length]. nia.
    + rewrite IHclosed. apply Qmake_nat_eq.
      unfold count_frames. cbn [filter length]. nia.
    + rewrite (IHopen k ltac:(lia)). apply Qmake_nat_eq.
      unfold count_frames. cbn [filter length]. nia.
    + rewrite close_pause_acc, IHclosed. cbn [iadd_np scalar_value].
      rewrite times_sub by lia. rewrite Qplus_0_l, Qmake_nat_add.
      apply Qmake_nat_eq. unfold count_frames. cbn [filter length]. nia.
Qed.

Lemma pause_time_count (sil : list bool) :
  scalar_value (pause_time sr hop_length sil)
  == Z.of_nat (count_frames (removelast sil) * hop_length) # sr.
Proof.
  destruct sil as [|s rest]; [reflexivity|].
  unfold pause_time.
  now apply (pause_loop_count rest s 0 (length (s :: rest))).
Qed.
End PauseFrameFacts.

Lemma Qmake_div_cancel (sr : positive) (a b : nat) :
  b <> 0%nat ->
  (Z.of_nat a # sr) / (Z.of_nat b # sr) == (Z.of_nat a # 1) / (Z.of_nat b # 1).
Proof.
  intro Hb.
  assert (Hsr : ~ Z.pos sr # 1 == 0) by discriminate.
  assert (Hbq : ~ Z.of_nat b # 1 == 0).
  { unfold Qeq. cbn. lia. }
  assert (Ha : Z.of_nat a # sr == (Z.of_nat a # 1) / (Z.pos sr # 1)).
  { rewrite (Qmake_Qdiv (Z.of_nat a) sr). reflexivity. }
  assert (Hb' : Z.of_nat b # sr == (Z.of_nat b # 1) / (Z.pos sr # 1)).
  { rewrite (Qmake_Qdiv (Z.of_nat b) sr). reflexivity. }
  rewrite Ha, Hb'. field. split; assumption.
Qed.

Lemma pause_ratio_value (A : Type) (y : list A) (sr : positive)
      (hop_length : nat) (energy : list Q) (thr : Q) :
  y <> [] ->
  compute_total_pause_time y sr hop_length energy thr
  = Ok (Finite (scalar_value (pause_time sr hop_length (silence energy thr))
                / librosa.get_duration y sr))
  /\ scalar_value (pause_time sr hop_length (silence energy thr))
     / librosa.get_duration y sr
     == (Z.of_nat (count_frames (removelast (silence energy thr)) * hop_length)
         # 1)
        / (Z.of_nat (length y) # 1).
Proof.
  intro Hy.
  pose proof (get_duration_pos A y sr Hy) as Hpos.
  assert (Hnz : ~ librosa.get_duration y sr == 0) by lra.
  unfold compute_total_pause_time. rewrite (truediv_finite _ _ Hnz).
  split; [reflexivity|].
  rewrite pause_time_count. unfold librosa.get_duration.
  apply Qmake_div_cancel. destruct y; [contradiction | discriminate].
Qed.

(** X5.  On a non-empty signal, with a hop of at least one sample, the pause
    ratio is never negative and is [0] exactly when no frame before the last
    is silent: a silent last frame alone adds no pause. *)
Theorem pause_ratio_zero_iff :
  forall (A : Type) (y : list A) (sr : positive) (hop_length : nat)
         (energy : list Q) (silence_threshold : Q),
    y <> [] ->
    hop_length <> 0%nat ->
    exists r,
      compute_total_pause_time y sr hop_length energy silence_threshold
      = Ok (Finite r)
      /\ 0 <= r
      /\ (r == 0
          <-> count_frames (removelast (silence energy silence_threshold))
              = 0%nat).
Proof.
  intros A y sr hop energy thr Hy Hhop.
  destruct (pause_ratio_value A y sr hop energy thr Hy) as [Hret Hval].
  eexists. split; [exact Hret|]. rewrite Hval.
  set (c := count_frames (removelast (silence energy thr))).
  assert (Hlen : 0 < Z.of_nat (length y) # 1).
  { unfold Qlt. cbn. destruct y; [contradiction | cbn; lia]. }
  assert (Hinv : 0 < / (Z.of_nat (length y) # 1)) by now apply Qinv_lt_0_compat.
  assert (Hnum : 0 <= Z.of_nat (c * hop) # 1) by (unfold Qle; cbn; lia).
  unfold Qdiv. split; [|split].
  - apply Qmult_le_0_compat; [exact Hnum | lra].
  - intro H0. apply Qmult_integral in H0. destruct H0 as [H0|H0]; [|lra].
    unfold Qeq in H0. cbn in H0. nia.
  - intro Hc. rewrite Hc. cbn. reflexivity.
Qed.

Lemma pause_ratio_zero_iff_witness :
  exists r,
    compute_total_pause_time [1; 2; 3; 4; 5]%Z 16000 2
      [1 # 10; 1 # 10; 1 # 100] (1 # 50)
    = Ok (Finite r)
    /\ 0 <= r
    /\ (r == 0
        <-> count_frames
              (removelast (silence [1 # 10; 1 # 10; 1 # 100] (1 # 50)))
            = 0%nat).
Proof.
  apply (pause_ratio_zero_iff
           Z [1; 2; 3; 4; 5]%Z 16000 2 [1 # 10; 1 # 10; 1 # 100] (1 # 50)).
  - discriminate.
  - discriminate.
Defined.

Lemma Qdiv_nat_bounds (a b : nat) :
  (a <= b)%nat -> b <> 0%nat ->
  0 <= (Z.of_nat a # 1) / (Z.of_nat b # 1) <= 1.
Proof.
  intros Hab Hb.
  assert (Hbpos : 0 < Z.of_nat b # 1) by (unfold Qlt; cbn; lia).
  assert (Ha : 0 <= Z.of_nat a # 1) by (unfold Qle; cbn; lia).
  assert (Hle : Z.of_nat a # 1 <= Z.of_nat b # 1) by (unfold Qle; cbn; lia).
  split.
  - apply Qle_shift_div_l; [exact Hbpos | lra].
  - apply Qle_shift_div_r; [exact Hbpos | lra].
Qed.

(** X6.  With the frames [librosa.feature.rms] returns for a non-empty
    signal, the pause ratio is a finite number between [0] and [1]. *)
Theorem pause_ratio_between_0_and_1 :
  forall (A : Type) (y : list A) (sr : positive) (frame_length hop_length : nat)
         (energy : list Q) (silence_threshold : Q),
    y <> [] ->
    length energy = librosa.rms_frames (length y) frame_length hop_length ->
    exists r,
      compute_total_pause_time y sr hop_length energy silence_threshold
      = Ok (Finite r)
      /\ 0 <= r <= 1.
Proof.
  intros A y sr fl hop energy thr Hy Hframes.
  destruct (pause_ratio_value A y sr hop energy thr Hy) as [Hret Hval].
  eexists. split; [exact Hret|]. rewrite Hval.
  apply Qdiv_nat_bounds; [|destruct y; [contradiction | discriminate]].
  pose proof (count_frames_le (removelast (silence energy thr))) as Hc.
  pose proof (rms_frames_last_start (length y) fl hop) as Hlast.
  rewrite <- Hframes in Hlast.
  assert (Hn : length (removelast (silence energy thr)) = (length energy - 1)%nat).
  { unfold silence. destruct energy as [|e energy']; [reflexivity|].
    rewrite <- (length_map (fun e => Qlt_bool e thr) (e :: energy')).
    set (l := map (fun e => Qlt_bool e thr) (e :: energy')).
    assert (Hl : l <> []) by discriminate.
    rewrite (app_removelast_last false Hl) at 2.
    rewrite length_app. cbn. lia. }
  nia.
Qed.

Lemma pause_ratio_between_0_and_1_witness :
  exists r,
    compute_total_pause_time [1; 2; 3; 4; 5]%Z 16000 2
      [1 # 100; 1 # 100; 1 # 10] (1 # 50)
    = Ok (Finite r)
    /\ 0 <= r <= 1.
Proof.
  apply (pause_ratio_between_0_and_1
           Z [1; 2; 3; 4; 5]%Z 16000 2048 2 [1 # 100; 1 # 100; 1 # 10] (1 # 50)).
  - discriminate.
  - reflexivity.
Defined.

(** ** The two routines together *)

Lemma silence_complement (energy : list Q) (thr : Q) :
  Forall (fun e => ~ e == thr) energy ->
  silence energy thr = map negb (non_silent_frames energy thr).
Proof.
  unfold silence, non_silent_frames. rewrite map_map.
  induction 1 as [|e l He _ IH]; cbn; [reflexivity|]. rewrite IH. f_equal.
  destruct (Qgt_bool e thr) eqn:Hg, (Qlt_bool e thr) eqn:Hl; try reflexivity.
  - apply Qgt_bool_iff in Hg. apply Qlt_bool_iff in Hl. lra.
  - apply Qgt_bool_false_iff in Hg. apply Qlt_bool_false_iff in Hl.
    exfalso. apply He. lra.
Qed.

Lemma count_frames_complement (labels : list bool) :
  (count_frames labels + count_frames (map negb labels) = length labels)%nat.
Proof.
  unfold count_frames.
  induction labels as [|[|] l IH]; cbn [map filter length negb]; lia.
Qed.

Lemma removelast_map (B C : Type) (f : B -> C) (l : list B) :
  removelast (map f l) = map f (removelast l).
Proof.
  induction l as [|x [|x' l] IH]; [reflexivity | reflexivity |].
  change (map f (x :: x' :: l)) with (f x :: map f (x' :: l)).
  change (removelast (f x :: map f (x' :: l)))
    with (f x :: removelast (map f (x' :: l))).
  now rewrite IH.
Qed.

Lemma removelast_length (B : Type) (l : list B) :
  length (removelast l) = (length l - 1)%nat.
Proof.
  destruct l as [|x l]; [reflexivity|].
  assert (Hl : x :: l <> []) by discriminate.
  rewrite (app_removelast_last x Hl) at 2. rewrite length_app. cbn. lia.
Qed.

(** X7.  When no frame's energy equals the threshold and the frames are
    those [librosa.feature.rms] returns, the samples [strip_silence] keeps
    and the samples [compute_total_pause_time] counts as pause account for
    the signal: for all of it when the last frame is active, and for
    everything before the start of the last frame when it is silent. *)
Theorem kept_and_pause_samples_account_for_signal :
  forall (A : Type) (y : list A) (sr : positive) (frame_length hop_length : nat)
         (energy : list Q) (silence_threshold : Q) (out : list A),
    Forall (fun e => ~ e == silence_threshold) energy ->
    length energy = librosa.rms_frames (length y) frame_length hop_length ->
    strip_silence y hop_length sr energy silence_threshold = Ok out ->
    exists pause_samples,
      scalar_value (pause_time sr hop_length (silence energy silence_threshold))
      == Z.of_nat pause_samples # sr
      /\ (length out + pause_samples)%nat
         = if last (non_silent_frames energy silence_threshold) false
           then length y
           else ((length energy - 1) * hop_length)%nat.
Proof.
  intros A y sr fl hop energy thr out Hne Hframes Hout.
  exists (count_frames (removelast (silence energy thr)) * hop)%nat.
  split; [apply pause_time_count|].
  pose proof (rms_frames_last_start (length y) fl hop) as Hlast.
  rewrite <- Hframes in Hlast.
  apply strip_silence_inv in Hout. subst out.
  set (labels := non_silent_frames energy thr).
  assert (Hlen : length labels = length energy)
    by (subst labels; unfold non_silent_frames; apply length_map).
  rewrite active_frame_samples_length by (rewrite Hlen; exact Hlast).
  rewrite (silence_complement energy thr Hne). fold labels.
  rewrite removelast_map.
  pose proof (count_frames_complement (removelast labels)) as Hc.
  rewrite removelast_length, Hlen in Hc. rewrite Hlen.
  destruct (last labels false); nia.
Qed.

Lemma kept_and_pause_samples_account_for_signal_witness :
  exists pause_samples,
    scalar_value (pause_time 16000 2 (silence [1 # 10; 1 # 100; 1 # 10] (1 # 50)))
    == Z.of_nat pause_samples # 16000
    /\ (length [1; 2; 5]%Z + pause_samples)%nat
       = if last (non_silent_frames [1 # 10; 1 # 100; 1 # 10] (1 # 50)) false
         then length [1; 2; 3; 4; 5]%Z
         else ((length [1 # 10; 1 # 100; 1 # 10]%Q - 1) * 2)%nat.
Proof.
  apply (kept_and_pause_samples_account_for_signal
           Z [1; 2; 3; 4; 5]%Z 16000 2048 2
           [1 # 10; 1 # 100; 1 # 10] (1 # 50) [1; 2; 5]%Z).
  - repeat constructor; discriminate.
  - reflexivity.
  - reflexivity.
Defined.

(** ** Main speaker: when the order of the labels does not matter *)

Lemma main_speaker_first_max (label_duration : string -> Q)
      (speakers : list string) :
  speakers <> [] ->
  (forall s, In s speakers -> 0 <= label_duration s) ->
  exists main pre post,
    main_speaker label_duration speakers = Some main
    /\ speakers = pre ++ main :: post
    /\ (forall s, In s pre -> label_duration s < label_duration main)
    /\ (forall s, In s post -> label_duration s <= label_duration main).
Proof.
  intros Hne Hnonneg.
  destruct speakers as [|s0 rest]; [contradiction|].
  unfold main_speaker.
  destruct (1 <? length (s0 :: rest))%nat eqn:Hmulti.
  - assert (Hinit : select_inv label_duration s0 [] (0, s0))
      by (left; split; [reflexivity | contradiction]).
    pose proof (select_loop_inv label_duration s0 (s0 :: rest) [] (0, s0) Hinit)
      as Hinv.
    cbn [app] in Hinv.
    destruct Hinv as [[Hst Hall] | (_ & _ & pre & post & Hsplit & Hpre & Hpost)].
    + rewrite Hst. cbn [snd]. exists s0, [], rest.
      split; [reflexivity|]. split; [reflexivity|]. split; [contradiction|].
      intros s Hs. pose proof (Hall s (or_intror Hs)).
      pose proof (Hnonneg s0 (or_introl eq_refl)). lra.
    + eexists _, pre, post. split; [reflexivity|]. now split.
  - exists s0, [], rest. apply Nat.ltb_ge in Hmulti.
    destruct rest; [|cbn in Hmulti; lia].
    split; [reflexivity|]. split; [reflexivity|]. split; contradiction.
Qed.

(** X8.  When one label is strictly longer than every other, it is the main
    speaker in whatever order the labels are listed. *)
Theorem main_speaker_unique_longest :
  forall (label_duration : string -> Q) (speakers : list string) (longest : string),
    In longest speakers ->
    (forall s, In s speakers -> 0 <= label_duration s) ->
    (forall s, In s speakers -> s <> longest ->
               label_duration s < label_duration longest) ->
    forall order,
      Permutation speakers order ->
      main_speaker label_duration order = Some longest.
Proof.
  intros dur speakers m Hin Hnonneg Hmax order Hperm.
  assert (Hin' : In m order) by now apply (Permutation_in m Hperm).
  assert (Hback : forall s, In s order -> In s speakers).
  { intros s Hs. apply (Permutation_in s (Permutation_sym Hperm) Hs). }
  assert (Hne : order <> []) by (intros ->; contradiction).
  destruct (main_speaker_first_max dur order Hne)
    as (m' & pre & post & Hret & Hsplit & Hpre & Hpost).
  { intros s Hs. apply Hnonneg, Hback, Hs. }
  rewrite Hret. f_equal.
  destruct (string_dec m' m) as [Heq|Hneq]; [exact Heq|]. exfalso.
  assert (Hm' : In m' order).
  { rewrite Hsplit. apply in_or_app. right. now left. }
  pose proof (Hmax m' (Hback m' Hm') Hneq) as Hlt.
  rewrite Hsplit in Hin'. apply in_app_or in Hin'.
  destruct Hin' as [Hp|[Hp|Hp]].
  - specialize (Hpre m Hp). lra.
  - congruence.
  - specialize (Hpost m Hp). lra.
Qed.

Lemma main_speaker_unique_longest_witness :
  main_speaker
    (fun s => if String.eqb s "SPEAKER_01" then 12825 # 1000 else 6429 # 1000)
    ["SPEAKER_01"; "SPEAKER_00"]%string
  = Some "SPEAKER_01"%string.
Proof.
  apply (main_speaker_unique_longest
           (fun s => if String.eqb s "SPEAKER_01" then 12825 # 1000 else 6429 # 1000)
           ["SPEAKER_00"; "SPEAKER_01"]%string "SPEAKER_01"%string).
  - right. now left.
  - intros s _. destruct (String.eqb s "SPEAKER_01"); discriminate.
  - intros s _ Hs. destruct (String.eqb_spec s "SPEAKER_01"); [contradiction|].
    reflexivity.
  - apply perm_swap.
Defined.

(** ** Keeping the main speaker's audio *)

Lemma python_int_floor (x : Q) : 0 <= x -> python_int x = Qfloor x.
Proof.
  destruct x as [n d]. unfold python_int, Qfloor, Qle. cbn. intro Hn.
  apply Z.quot_div_nonneg; lia.
Qed.

Lemma python_int_nonneg (x : Q) : 0 <= x -> (0 <= python_int x)%Z.
Proof.
  intro Hx. rewrite python_int_floor by exact Hx.
  change 0%Z with (Qfloor 0). now apply Qfloor_resp_le.
Qed.

Lemma python_int_le (x x' : Q) :
  0 <= x -> x <= x' -> (python_int x <= python_int x')%Z.
Proof.
  intros Hx Hle. rewrite !python_int_floor by lra. now apply Qfloor_resp_le.
Qed.

Lemma python_int_eq (x x' : Q) :
  0 <= x -> x == x' -> python_int x = python_int x'.
Proof.
  intros Hx Heq. rewrite !python_int_floor by lra. now apply Qfloor_comp.
Qed.

Section SpeakerAudioFacts.
Context {A : Type}.
Variable audio : list A.
Variable sr : positive.

Lemma scaled_nonneg (t : Q) : 0 <= t -> 0 <= t * (Z.pos sr # 1).
Proof. intro Ht. apply Qmult_le_0_compat; [exact Ht | discriminate]. Qed.

Lemma scaled_le (t t' : Q) : t <= t' -> t * (Z.pos sr # 1) <= t' * (Z.pos sr # 1).
Proof. intro Hle. apply Qmult_le_compat_r; [exact Hle | discriminate]. Qed.

Lemma slice_bound_nonneg (i : Z) :
  (0 <= i)%Z -> slice_bound audio i = Nat.min (Z.to_nat i) (length audio).
Proof.
  intro Hi. unfold slice_bound.
  destruct (Z.ltb_spec i 0); [lia|]. lia.
Qed.

Lemma sample_le_length (t : Q) : 0 <= t -> (sample_index audio sr t <= length audio)%nat.
Proof.
  intro Ht. unfold sample_index.
  rewrite slice_bound_nonneg by now apply python_int_nonneg, scaled_nonneg.
  lia.
Qed.

Lemma sample_le (t t' : Q) : 0 <= t -> t <= t' -> (sample_index audio sr t <= sample_index audio sr t')%nat.
Proof.
  intros Ht Hle. unfold sample_index.
  pose proof (python_int_nonneg _ (scaled_nonneg t Ht)).
  pose proof (python_int_le _ _ (scaled_nonneg t Ht) (scaled_le t t' Hle)).
  rewrite !slice_bound_nonneg by lia. lia.
Qed.

Lemma sample_eq (t t' : Q) : 0 <= t -> t == t' -> sample_index audio sr t = sample_index audio sr t'.
Proof.
  intros Ht Heq. unfold sample_index. f_equal.
  apply python_int_eq; [now apply scaled_nonneg | now rewrite Heq].
Qed.

Lemma segment_audio_sample (segment : Segment) :
  segment_audio audio sr segment
  = np.slice audio (sample_index audio sr (seg_start segment)) (sample_index audio sr (seg_end segment)).
Proof. reflexivity. Qed.

Lemma slice_length (a b : nat) :
  (a <= b)%nat -> (b <= length audio)%nat ->
  length (np.slice audio a b) = (b - a)%nat.
Proof.
  intros Hab Hb. unfold np.slice. rewrite length_skipn, length_firstn. lia.
Qed.

Lemma slice_join (a b c : nat) :
  (a <= b)%nat -> (b <= c)%nat ->
  np.slice audio a b ++ np.slice audio b c = np.slice audio a c.
Proof.
  intros Hab Hbc. unfold np.slice.
  rewrite (skipn_firstn_skipn (firstn c audio) a b Hab).
  rewrite firstn_firstn. now replace (Nat.min b c) with b by lia.
Qed.

(** The parts of an ordered timeline fit in the audio that follows its
    start. *)
Lemma ordered_parts_length (keep_timeline : list Segment) :
  forall t,
    0 <= t ->
    ordered_from t keep_timeline ->
    (length (concat (map (segment_audio audio sr) keep_timeline)) + sample_index audio sr t
     <= length audio)%nat.
Proof.
  induction keep_timeline as [|segment rest IH]; intros t Ht Hord.
  - cbn. now apply sample_le_length.
  - destruct Hord as (Hts & Hse & Hrest).
    assert (Hs : 0 <= seg_start segment) by lra.
    assert (He : 0 <= seg_end segment) by lra.
    specialize (IH (seg_end segment) He Hrest).
    cbn [map concat]. rewrite length_app, segment_audio_sample.
    pose proof (sample_le t (seg_start segment) Ht Hts).
    pose proof (sample_le (seg_start segment) (seg_end segment) Hs Hse).
    pose proof (sample_le_length (seg_end segment) He).
    rewrite slice_length by assumption. lia.
Qed.

Lemma timeline_end_cons (t : Q) (segment : Segment) (rest : list Segment) :
  timeline_end t (segment :: rest) = timeline_end (seg_end segment) rest.
Proof. reflexivity. Qed.

Lemma contiguous_end_le (keep_timeline : list Segment) :
  forall t,
    contiguous_from t keep_timeline -> t <= timeline_end t keep_timeline.
Proof.
  induction keep_timeline as [|segment rest IH]; intros t Hc.
  - cbn. lra.
  - destruct Hc as (Hst & Hse & Hrest). rewrite timeline_end_cons.
    specialize (IH (seg_end segment) Hrest). lra.
Qed.

(** The parts of a timeline without gaps join into one slice. *)
Lemma contiguous_parts_join (keep_timeline : list Segment) :
  forall t,
    0 <= t ->
    contiguous_from t keep_timeline ->
    concat (map (segment_audio audio sr) keep_timeline)
    = np.slice audio (sample_index audio sr t) (sample_index audio sr (timeline_end t keep_timeline)).
Proof.
  induction keep_timeline as [|segment rest IH]; intros t Ht Hc.
  - cbn. symmetry. apply length_zero_iff_nil. unfold np.slice.
    rewrite length_skipn, length_firstn. lia.
  - destruct Hc as (Hst & Hse & Hrest).
    assert (Hs : 0 <= seg_start segment) by lra.
    assert (He : 0 <= seg_end segment) by lra.
    cbn [map concat]. rewrite (IH (seg_end segment) He Hrest).
    rewrite segment_audio_sample, timeline_end_cons.
    rewrite (sample_eq (seg_start segment) t Hs Hst).
    apply slice_join.
    + apply sample_le; lra.
    + apply sample_le; [exact He | now apply contiguous_end_le].
Qed.
End SpeakerAudioFacts.

Lemma ordered_parts_sum (A : Type) (audio : list A) (sr : positive)
      (keep_timeline : list Segment) :
  forall t,
    0 <= t ->
    ordered_from t keep_timeline ->
    length (concat (map (segment_audio audio sr) keep_timeline))
    = list_sum
        (map (fun segment =>
                (sample_index audio sr (seg_end segment)
                 - sample_index audio sr (seg_start segment))%nat)
             keep_timeline).
Proof.
  induction keep_timeline as [|segment rest IH]; intros t Ht Hord;
    [reflexivity|].
  destruct Hord as (Hts & Hse & Hrest).
  assert (Hs : 0 <= seg_start segment) by lra.
  assert (He : 0 <= seg_end segment) by lra.
  cbn [map concat list_sum]. rewrite length_app, segment_audio_sample.
  rewrite (IH (seg_end segment) He Hrest).
  rewrite slice_length;
    [reflexivity | now apply sample_le | now apply sample_le_length].
Qed.

(** X9.  For a keep timeline whose segments are in temporal order without
    overlap, the audio kept has, segment by segment, the samples between the
    truncated sample indices of the segment's bounds; it is never longer than
    the recording, and the removed ratio lies between [0] and [1]. *)
Theorem speaker_audio_ordered_timeline :
  forall (A : Type) (audio : list A) (sr : positive)
         (keep_timeline : list Segment),
    keep_timeline <> [] ->
    ordered_from 0 keep_timeline ->
    exists kept,
      speaker_audio audio sr keep_timeline = Ok kept
      /\ length kept
         = list_sum
             (map (fun segment =>
                     (sample_index audio sr (seg_end segment)
                      - sample_index audio sr (seg_start segment))%nat)
                  keep_timeline)
      /\ (length kept <= length audio)%nat
      /\ (audio <> [] ->
          exists ratio,
            removed_ratio audio kept = Ok ratio /\ 0 <= ratio <= 1).
Proof.
  intros A audio sr keep Hne Hord.
  exists (concat (map (segment_audio audio sr) keep)).
  assert (Hlen : (length (concat (map (segment_audio audio sr) keep))
                  <= length audio)%nat).
  { pose proof (ordered_parts_length audio sr keep 0 ltac:(lra) Hord). lia. }
  split; [|split; [|split]].
  - unfold speaker_audio. destruct keep; [contradiction | reflexivity].
  - apply (ordered_parts_sum A audio sr keep 0); [lra | exact Hord].
  - exact Hlen.
  - intro Haudio. unfold removed_ratio.
    destruct (length audio) as [|n] eqn:Hn;
      [destruct audio; [contradiction | discriminate]|].
    eexists. split; [reflexivity|].
    pose proof (Qdiv_nat_bounds
                  (length (concat (map (segment_audio audio sr) keep))) (S n)
                  Hlen ltac:(lia)).
    lra.
Qed.

Lemma speaker_audio_ordered_timeline_witness :
  exists kept,
    speaker_audio [1; 2; 3; 4; 5; 6; 7; 8]%Z 4
      [mkSegment 0 (1 # 2); mkSegment (3 # 4) (7 # 4)]
    = Ok kept
    /\ length kept
       = list_sum
           (map (fun segment =>
                   (sample_index [1; 2; 3; 4; 5; 6; 7; 8]%Z 4 (seg_end segment)
                    - sample_index [1; 2; 3; 4; 5; 6; 7; 8]%Z 4
                        (seg_start segment))%nat)
                [mkSegment 0 (1 # 2); mkSegment (3 # 4) (7 # 4)])
    /\ (length kept <= length [1; 2; 3; 4; 5; 6; 7; 8]%Z)%nat
    /\ ([1; 2; 3; 4; 5; 6; 7; 8]%Z <> [] ->
        exists ratio,
          removed_ratio [1; 2; 3; 4; 5; 6; 7; 8]%Z kept = Ok ratio
          /\ 0 <= ratio <= 1).
Proof.
  apply (speaker_audio_ordered_timeline Z [1; 2; 3; 4; 5; 6; 7; 8]%Z 4
           [mkSegment 0 (1 # 2); mkSegment (3 # 4) (7 # 4)]).
  - discriminate.
  - cbn. repeat split; discriminate.
Defined.

(** X10.  For a keep timeline that starts at time [0] and whose segments
    follow each other without a gap, consecutive parts join without losing
    or repeating a sample: the audio kept is the recording up to the sample
    index of the timeline's end, and the whole recording when that index
    reaches its length. *)
Theorem speaker_audio_contiguous_timeline :
  forall (A : Type) (audio : list A) (sr : positive)
         (keep_timeline : list Segment),
    keep_timeline <> [] ->
    contiguous_from 0 keep_timeline ->
    let end_sample :=
      python_int (timeline_end 0 keep_timeline * (Z.pos sr # 1)) in
    speaker_audio audio sr keep_timeline
    = Ok (firstn (Z.to_nat end_sample) audio)
    /\ ((Z.of_nat (length audio) <= end_sample)%Z ->
        speaker_audio audio sr keep_timeline = Ok audio).
Proof.
  intros A audio sr keep Hne Hc end_sample.
  assert (Hparts : concat (map (segment_audio audio sr) keep)
                   = firstn (Z.to_nat end_sample) audio).
  { rewrite (contiguous_parts_join audio sr keep 0 ltac:(lra) Hc).
    pose proof (contiguous_end_le keep 0 Hc) as Hend.
    assert (Hnn : (0 <= end_sample)%Z).
    { subst end_sample. apply python_int_nonneg. apply scaled_nonneg. exact Hend. }
    unfold sample_index. fold end_sample.
    rewrite (slice_bound_nonneg audio end_sample Hnn).
    change (python_int (0 * (Z.pos sr # 1))) with 0%Z.
    rewrite (slice_bound_nonneg audio 0%Z ltac:(lia)).
    cbn [Z.to_nat Nat.min]. unfold np.slice. cbn [skipn].
    rewrite <- firstn_firstn.
    now rewrite firstn_all. }
  assert (Hret : speaker_audio audio sr keep
                 = Ok (firstn (Z.to_nat end_sample) audio)).
  { unfold speaker_audio. rewrite <- Hparts.
    destruct keep; [contradiction | reflexivity]. }
  split; [exact Hret|].
  intro Hreach. rewrite Hret. f_equal. apply firstn_all2. lia.
Qed.

Lemma speaker_audio_contiguous_timeline_witness :
  speaker_audio [1; 2; 3; 4; 5; 6; 7; 8]%Z 4
    [mkSegment 0 (1 # 3); mkSegment (1 # 3) (5 # 3)]
  = Ok (firstn
          (Z.to_nat
             (python_int
                (timeline_end 0 [mkSegment 0 (1 # 3); mkSegment (1 # 3) (5 # 3)]
                 * (4 # 1))))
          [1; 2; 3; 4; 5; 6; 7; 8]%Z)
  /\ ((Z.of_nat (length [1; 2; 3; 4; 5; 6; 7; 8]%Z)
       <= python_int
            (timeline_end 0 [mkSegment 0 (1 # 3); mkSegment (1 # 3) (5 # 3)]
             * (4 # 1)))%Z ->
      speaker_audio [1; 2; 3; 4; 5; 6; 7; 8]%Z 4
        [mkSegment 0 (1 # 3); mkSegment (1 # 3) (5 # 3)]
      = Ok [1; 2; 3; 4; 5; 6; 7; 8]%Z).
Proof.
  apply (speaker_audio_contiguous_timeline Z [1; 2; 3; 4; 5; 6; 7; 8]%Z 4
           [mkSegment 0 (1 # 3); mkSegment (1 # 3) (5 # 3)]).
  - discriminate.
  - cbn. repeat split; discriminate.
Defined.

(** ** Peak normalization *)

Lemma fold_Qmax_ge (rest : list Q) :
  forall x z, In z (x :: rest) -> z <= fold_left Qmax rest x.
Proof.
  induction rest as [|r rest IH]; intros x z Hin.
  - destruct Hin as [Hx|[]]. subst z. cbn. lra.
  - cbn [fold_left]. destruct Hin as [Hx|[Hr|Hin]].
    + subst z. apply Qle_trans with (Qmax x r); [apply Q.le_max_l|].
      apply IH. now left.
    + subst z. apply Qle_trans with (Qmax x r); [apply Q.le_max_r|].
      apply IH. now left.
    + apply IH. now right.
Qed.

Lemma Qmax_cases (x r : Q) : Qmax x r = x \/ Qmax x r = r.
Proof.
  unfold Qmax, GenericMinMax.gmax. destruct (x ?= r); auto.
Qed.

Lemma fold_Qmax_in (rest : list Q) :
  forall x, In (fold_left Qmax rest x) (x :: rest).
Proof.
  induction rest as [|r rest IH]; intro x; [now left|].
  cbn [fold_left]. destruct (IH (Qmax x r)) as [Heq|Hin].
  - rewrite <- Heq. destruct (Qmax_cases x r) as [->| ->]; [now left|].
    right. now left.
  - right. now right.
Qed.

(** The peak [np.max(np.abs(signal))] bounds every sample and is attained. *)
Lemma peak_spec (signal : list Q) (peak : Q) :
  np_max (np_abs signal) = Ok peak ->
  (forall x, In x signal -> Qabs x <= peak)
  /\ exists x, In x signal /\ Qabs x = peak.
Proof.
  unfold np_max, np_abs. destruct signal as [|x0 rest]; [discriminate|].
  cbn [map]. intro H. injection H as <-. split.
  - intros x Hin. apply fold_Qmax_ge.
    change (In (Qabs x) (map Qabs (x0 :: rest))). now apply in_map.
  - pose proof (fold_Qmax_in (map Qabs rest) (Qabs x0)) as Hin.
    change (In (fold_left Qmax (map Qabs rest) (Qabs x0)) (map Qabs (x0 :: rest)))
      in Hin.
    apply in_map_iff in Hin. destruct Hin as (x & Hx & Hin). now exists x.
Qed.

Lemma np_divide_finite (x peak : Q) :
  ~ peak == 0 -> np_divide x peak = Finite (x / peak).
Proof.
  intro Hp. unfold np_divide.
  destruct (Qeq_bool peak 0) eqn:E; [|reflexivity].
  apply Qeq_bool_eq in E. contradiction.
Qed.

Lemma Qabs_div_pos (x peak : Q) : 0 < peak -> Qabs (x / peak) == Qabs x / peak.
Proof.
  intro Hp. unfold Qdiv. rewrite Qabs_Qmult.
  rewrite (Qabs_pos (/ peak)); [reflexivity|].
  apply Qlt_le_weak. now apply Qinv_lt_0_compat.
Qed.

(** X11.  When some sample is not zero, normalization divides every sample
    by the positive peak: every normalized sample lies in [[-1, 1]] and some
    normalized sample has absolute value exactly [1]. *)
Theorem normalize_peak_is_one :
  forall (signal : list Q),
    (exists x, In x signal /\ ~ x == 0) ->
    exists peak,
      0 < peak
      /\ normalize signal = Ok (map (fun x => Finite (x / peak)) signal)
      /\ (forall x, In x signal -> Qabs (x / peak) <= 1)
      /\ (exists x, In x signal /\ Qabs (x / peak) == 1).
Proof.
  intros signal (x1 & Hin1 & Hx1).
  destruct (np_max (np_abs signal)) as [peak|e] eqn:Hmax.
  2:{ unfold np_max, np_abs in Hmax. destruct signal; [contradiction|discriminate]. }
  destruct (peak_spec signal peak Hmax) as [Hbound (xp & Hinp & Hxp)].
  assert (Hpos : 0 < peak).
  { apply Qlt_le_trans with (Qabs x1); [|now apply Hbound].
    destruct (Qlt_le_dec 0 (Qabs x1)) as [|Hle]; [assumption|].
    exfalso. apply Hx1. apply Qabs_Qle_condition in Hle. lra. }
  assert (Hnz : ~ peak == 0) by lra.
  exists peak. split; [exact Hpos|]. split; [|split].
  - unfold normalize. rewrite Hmax. f_equal.
    apply map_ext. intro x. now apply np_divide_finite.
  - intros x Hin. rewrite Qabs_div_pos by exact Hpos.
    apply Qle_shift_div_r; [exact Hpos|]. specialize (Hbound x Hin). lra.
  - exists xp. split; [exact Hinp|].
    rewrite Qabs_div_pos by exact Hpos. rewrite Hxp. now apply Qmult_inv_r.
Qed.

Lemma normalize_peak_is_one_witness :
  exists peak,
    0 < peak
    /\ normalize [1 # 4; - (1 # 2); 0]
       = Ok (map (fun x => Finite (x / peak)) [1 # 4; - (1 # 2); 0])
    /\ (forall x, In x [1 # 4; - (1 # 2); 0] -> Qabs (x / peak) <= 1)
    /\ (exists x, In x [1 # 4; - (1 # 2); 0] /\ Qabs (x / peak) == 1).
Proof.
  apply (normalize_peak_is_one [1 # 4; - (1 # 2); 0]).
  exists (1 # 4). split; [now left | discriminate].
Defined.

(** X12.  A signal without a non-zero sample is not normalized: the empty
    signal makes [np.max] raise, and a signal of zeros comes back, without
    any exception, as an array of [nan]. *)
Theorem normalize_silent_signal :
  forall (signal : list Q),
    Forall (fun x => x == 0) signal ->
    normalize signal
    = match signal with
      | [] => Raise ValueError
      | _ :: _ => Ok (repeat NaN (length signal))
      end.
Proof.
  intros signal Hzero. destruct signal as [|x0 rest]; [reflexivity|].
  destruct (np_max (np_abs (x0 :: rest))) as [peak|e] eqn:Hmax; [|discriminate].
  destruct (peak_spec (x0 :: rest) peak Hmax) as [_ (xp & Hinp & Hxp)].
  rewrite Forall_forall in Hzero.
  assert (Hpeak : peak == 0).
  { rewrite <- Hxp, (Hzero xp Hinp). reflexivity. }
  unfold normalize. rewrite Hmax. f_equal.
  assert (Hall : forall l : list Q,
             (forall x, In x l -> x == 0) ->
             map (fun x => np_divide x peak) l = repeat NaN (length l)).
  { induction l as [|x l IH]; intro Hl; [reflexivity|].
    cbn [map length repeat]. rewrite IH by (intros; apply Hl; now right).
    f_equal. unfold np_divide.
    rewrite (Qeq_eq_bool _ _ Hpeak).
    now rewrite (Qeq_eq_bool _ _ (Hl x (or_introl eq_refl))). }
  apply Hall. exact Hzero.
Qed.

Lemma normalize_silent_signal_witness :
  normalize [0; 0; 0] = Ok (repeat NaN (length [0; 0; 0]%Q)).
Proof.
  apply (normalize_silent_signal [0; 0; 0]). repeat constructor.
Defined.

(** ** The threshold *)

Section ThresholdFacts.
Variables (f g : Q -> bool).
Hypothesis f_implies_g : forall e, f e = true -> g e = true.

Lemma count_frames_map_le (energy : list Q) :
  (count_frames (map f energy) <= count_frames (map g energy))%nat.
Proof.
  unfold count_frames.
  induction energy as [|e energy IH]; [reflexivity|]. cbn [map filter].
  destruct (f e) eqn:Hf.
  - rewrite (f_implies_g e Hf). cbn [length]. lia.
  - destruct (g e); cbn [length]; lia.
Qed.

Lemma active_frame_samples_map_le (A : Type) (hop_length : nat)
      (energy : list Q) :
  forall z : list A,
    (length (active_frame_samples hop_length (map f energy) z)
     <= length (active_frame_samples hop_length (map g energy) z))%nat.
Proof.
  induction energy as [|e energy IH]; intro z; [reflexivity|].
  destruct energy as [|e' energy].
  - cbn. destruct (f e) eqn:Hf.
    + now rewrite (f_implies_g e Hf).
    + destruct (g e); cbn; lia.
  - change (map f (e :: e' :: energy)) with (f e :: f e' :: map f energy).
    change (map g (e :: e' :: energy)) with (g e :: g e' :: map g energy).
    rewrite !active_frame_samples_cons, !length_app.
    specialize (IH (skipn hop_length z)).
    change (f e' :: map f energy) with (map f (e' :: energy)).
    change (g e' :: map g energy) with (map g (e' :: energy)).
    destruct (f e) eqn:Hf.
    + rewrite (f_implies_g e Hf). lia.
    + destruct (g e); cbn [length]; lia.
Qed.
End ThresholdFacts.

(** X14.  Raising the threshold never lowers the pause ratio. *)
Theorem pause_ratio_monotone_in_threshold :
  forall (A : Type) (y : list A) (sr : positive) (hop_length : nat)
         (energy : list Q) (threshold threshold' : Q),
    y <> [] ->
    threshold <= threshold' ->
    exists r r',
      compute_total_pause_time y sr hop_length energy threshold = Ok (Finite r)
      /\ compute_total_pause_time y sr hop_length energy threshold'
         = Ok (Finite r')
      /\ r <= r'.
Proof.
  intros A y sr hop energy thr thr' Hy Hle.
  destruct (pause_ratio_value A y sr hop energy thr Hy) as [Hret Hval].
  destruct (pause_ratio_value A y sr hop energy thr' Hy) as [Hret' Hval'].
  do 2 eexists. split; [exact Hret|]. split; [exact Hret'|].
  rewrite Hval, Hval'.
  assert (Hcount :
    (count_frames (removelast (silence energy thr))
     <= count_frames (removelast (silence energy thr')))%nat).
  { unfold silence. rewrite !removelast_map.
    apply count_frames_map_le. intros e He.
    apply Qlt_bool_iff in He. apply Qlt_bool_iff. lra. }
  assert (Hlen : 0 < Z.of_nat (length y) # 1).
  { unfold Qlt. cbn. destruct y; [contradiction | cbn; lia]. }
  unfold Qdiv. apply Qmult_le_compat_r.
  - unfold Qle. cbn. nia.
  - apply Qlt_le_weak. now apply Qinv_lt_0_compat.
Qed.

Lemma pause_ratio_monotone_in_threshold_witness :
  exists r r',
    compute_total_pause_time [1; 2; 3; 4; 5]%Z 16000 2
      [1 # 100; 1 # 20; 1 # 10] (1 # 50) = Ok (Finite r)
    /\ compute_total_pause_time [1; 2; 3; 4; 5]%Z 16000 2
         [1 # 100; 1 # 20; 1 # 10] (3 # 50) = Ok (Finite r')
    /\ r <= r'.
Proof.
  apply (pause_ratio_monotone_in_threshold Z [1; 2; 3; 4; 5]%Z 16000 2
           [1 # 100; 1 # 20; 1 # 10] (1 # 50) (3 # 50)).
  - discriminate.
  - discriminate.
Defined.

(** X15.  Raising the threshold never makes [strip_silence] keep more: when
    it still returns a signal at the higher threshold, it returns one at the
    lower threshold too, and that one is at least as long. *)
Theorem strip_silence_antitone_in_threshold :
  forall (A : Type) (y : list A) (sr : positive) (hop_length : nat)
         (energy : list Q) (threshold threshold' : Q) (out' : list A),
    threshold <= threshold' ->
    strip_silence y hop_length sr energy threshold' = Ok out' ->
    exists out,
      strip_silence y hop_length sr energy threshold = Ok out
      /\ (length out' <= length out)%nat.
Proof.
  intros A y sr hop energy thr thr' out' Hle Hout'.
  assert (Himp : forall e, Qgt_bool e thr' = true -> Qgt_bool e thr = true).
  { intros e He. apply Qgt_bool_iff in He. apply Qgt_bool_iff. lra. }
  destruct (strip_silence y hop sr energy thr) as [out|e] eqn:Hout.
  - exists out. split; [reflexivity|].
    apply strip_silence_inv in Hout. apply strip_silence_inv in Hout'.
    subst out out'. unfold non_silent_frames.
    now apply active_frame_samples_map_le.
  - exfalso.
    assert (He : e = ValueError).
    { unfold strip_silence, np.concatenate in Hout.
      destruct (non_silent_audio y hop (non_silent_frames energy thr));
        [now injection Hout as <- | discriminate]. }
    subst e. apply strip_silence_raises_nil in Hout.
    assert (Hnone : existsb (fun e => Qgt_bool e thr') energy = false).
    { destruct (existsb (fun e => Qgt_bool e thr') energy) eqn:E; [|reflexivity].
      apply existsb_exists in E. destruct E as (e & Hin & He).
      assert (existsb (fun e => Qgt_bool e thr) energy = true)
        by (apply existsb_exists; exists e; auto).
      congruence. }
    apply (strip_silence_raises_nil A y sr hop energy thr') in Hnone.
    congruence.
Qed.

Lemma strip_silence_antitone_in_threshold_witness :
  exists out,
    strip_silence [1; 2; 3; 4; 5]%Z 2 16000 [1 # 100; 1 # 20; 1 # 10] (1 # 50)
    = Ok out
    /\ (length [5]%Z <= length out)%nat.
Proof.
  apply (strip_silence_antitone_in_threshold Z [1; 2; 3; 4; 5]%Z 16000 2
           [1 # 100; 1 # 20; 1 # 10] (1 # 50) (3 # 50) [5]%Z).
  - discriminate.
  - reflexivity.
Defined.
